(** * politeiad/backend/gitbe/decred.go: the decred voting plugin

    A shallow embedding of the plugin commands of the git backend
    ([pluginStartVote], [pluginCastVotes]) and of the helpers they call
    ([verifyMessage], [largestCommitmentAddress], [validateVote], the
    dcrdata queries), followed by the properties of the voting subsystem.

    Conventions.
    - A Go result pair [(T, error)] is a value of [res T]; a function that
      only returns [error] returns [option string] ([None] is [nil]).
    - A Go [panic] is the outcome [Panicked]; it keeps the world reached so
      far, since what was written to disk before the abort stays there.
    - [uint32] values are integers in [Z] with the wrap-around written out.
    - [float64] commitment amounts come out of a JSON decoder, hence are
      finite; the code only compares them, so they are rationals ([Qc]).
    - Library code (dcrd, dcrutil, encoding/..., the decredplugin codecs)
      is an interface, [Primitives]; what the outside world answers during
      one call (dcrdata, the lock, git, the file system, the order of a
      [range] over a map) is a record, [Env]. *)

From Stdlib Require Import ZArith QArith Qcanon.
From stdpp Require Import base numbers option list strings gmap sets sorting pretty.

Local Open Scope string_scope.
Local Open Scope list_scope.

(** ** Results *)

Inductive res (A : Type) : Type :=
| Ok (a : A)
| Err (e : string).
Arguments Ok {A} a.
Arguments Err {A} e.

Definition isOk {A} (r : res A) : bool :=
  match r with Ok _ => true | Err _ => false end.

Abbreviation bytes := (list Byte.byte).

(** [[]byte(s)] and [string(b)]. *)
Definition bytesOf (s : string) : bytes := String.list_byte_of_string s.
Definition stringOf (b : bytes) : string := String.string_of_list_byte b.

(** ** Data declared outside decred.go

    The structs of packages decredplugin, backend and dcrdataapi, with the
    fields decred.go reads or writes. *)

Module CastVote.
Record t := mk {
  Token : string;
  Ticket : string;
  VoteBit : string;
  Signature : string }.
#[global] Instance eq_dec : EqDecision t.
Proof. solve_decision. Defined.
End CastVote.

Module CastVoteReply.
Record t := mk {
  ClientSignature : string;
  Signature : string;
  Error : string }.
#[global] Instance eq_dec : EqDecision t.
Proof. solve_decision. Defined.
(** The zero value, as [make([]CastVoteReply, n)] fills the slice. *)
Definition zero : t := mk "" "" "".
Definition setClientSignature (s : string) (r : t) : t :=
  mk s (Signature r) (Error r).
Definition setSignature (s : string) (r : t) : t :=
  mk (ClientSignature r) s (Error r).
Definition setError (s : string) (r : t) : t :=
  mk (ClientSignature r) (Signature r) s.
End CastVoteReply.

Module StartVoteReply.
Record t := mk {
  StartBlockHeight : string;
  StartBlockHash : string;
  EndHeight : string;
  EligibleTickets : list string }.
End StartVoteReply.

Record MetadataStream := {
  ID : Z;
  Payload : string }.

Record BlockDataBasic := {
  Height : Z;          (* uint32 *)
  Hash : string }.

Record ScriptPubKey := {
  CommitAmt : option Qc;      (* *float64, nil when absent *)
  Addresses : list string }.

Record Vout := { ScriptPubKeyDecoded : ScriptPubKey }.

Record TrimmedTx := {
  TxID : string;
  Vout_ : list Vout }.

(** ** Library code *)

Class Primitives := {
  (* chaincfg *)
  Params : Type;
  TicketMaturity : Params → Z;
  (* dcrutil, chainec, chainhash, wire *)
  Address : Type;
  PublicKey : Type;
  DecodeAddress : string → res Address;
  isAddressPubKeyHash : Address → bool;
  WriteVarString : string → bytes;
  HashB : bytes → bytes;
  RecoverCompact : bytes → bytes → res (PublicKey * bool);
  SerializeCompressed : PublicKey → bytes;
  SerializeUncompressed : PublicKey → bytes;
  NewAddressSecpPubKey : bytes → Params → res Address;
  EncodeAddress : Address → string;
  (* encoding/base64, encoding/hex, path/filepath *)
  base64_DecodeString : string → res bytes;
  base64_EncodeToString : bytes → string;
  hex_DecodeString : string → res bytes;
  hex_EncodeToString : bytes → string;
  filepath_Join : list string → string;
  (* identity, util *)
  FullIdentity : Type;
  UnmarshalFullIdentity : bytes → res FullIdentity;
  SignMessage : FullIdentity → bytes → bytes;
  ConvertStringToken : string → res bytes;
  (* decredplugin *)
  Vote : Type;
  Vote_Token : Vote → string;
  DecodeVote : bytes → res Vote;
  EncodeStartVoteReply : StartVoteReply.t → res bytes;
  DecodeCastVotes : bytes → res (list CastVote.t);
  EncodeCastVoteReplies : list CastVoteReply.t → res bytes;
  MDStreamVoteBits : Z;
  MDStreamVoteSnapshot : Z;
  (* backend *)
  ErrShutdown : string }.

(** ** The backend and the world around one call *)

Record gitBackEnd `{Primitives} := {
  activeNetParams : Params;
  shutdown : bool;
  unvetted : string;
  vetted : string }.

(** One record of a votes file as the JSON decoder meets it: a vote, or a
    place where [Decode] returns an error other than [io.EOF].  The end of
    the list is the end of the file. *)
Inductive LedgerItem :=
| Stored (cv : CastVote.t)
| Corrupt (err : string).

Inductive Event :=
| EvHttpGet (url : string)
| EvVerifyMessage (address message signature : string)
| EvLock
| EvUnlock
| EvGitCheckout (path branch : string)
| EvGitPull (path : string)
| EvOpenFile (path : string)
| EvWrite (path : string) (cv : CastVote.t)
| EvClose (path : string)
| EvUpdateVettedMetadata (token : bytes) (streams : list MetadataStream).

Record Env := {
  (* dcrdata: [http.Get] of the url followed by the JSON decoder *)
  getBlock : string → res BlockDataBasic;
  getTickets : string → res (list string);
  getTx : string → res TrimmedTx;
  (* [g.lock.Lock(LockDuration)] *)
  lockLock : option string;
  gitCheckout : string → string → option string;
  gitPull : string → bool → option string;
  UpdateVettedMetadata : bytes → list MetadataStream → option string;
  (* os.OpenFile, Seek to the end, and the write of one JSON record *)
  osOpenFile : string → option string;
  fileSeek : string → option string;
  fileEncode : string → CastVote.t → option string;
  (* the order in which the runtime walks the two maps of [pluginCastVotes] *)
  rangeDedupVotes : string → nat;
  rangeFiles : string → nat }.

Record World := {
  decredPluginSettings : gmap string string;
  disk : gmap string (list LedgerItem);
  trace : list Event }.

(** ** Settings *)

Definition decredPluginIdentity : string := "fullidentity".

(** [decredPluginSettings[key]]: the zero value when the key is absent. *)
Definition setting (settings : gmap string string) (key : string) : string :=
  default "" (settings !! key).

Definition setDecredPluginSetting (key value : string) (w : World) : World :=
  if decide (value = "")
  then {| decredPluginSettings := delete key (decredPluginSettings w);
          disk := disk w; trace := trace w |}
  else {| decredPluginSettings := <[key := value]> (decredPluginSettings w);
          disk := disk w; trace := trace w |}.

(** ** verifyMessage *)

Definition newline : string := String (Ascii.ascii_of_nat 10) "".

Section Decred.
Context `{Primitives}.

(** The hash of the length-prefixed tag followed by the length-prefixed
    message. *)
Definition expectedMessageHash (message : string) : bytes :=
  HashB (WriteVarString ("Decred Signed Message:" +:+ newline)
         ++ WriteVarString message).

Definition verifyMessage (g : gitBackEnd) (address message signature : string)
  : bool * option string :=
  match DecodeAddress address with
  | Err err => (false, Some ("Could not decode address: " +:+ err))
  | Ok addr =>
    if negb (isAddressPubKeyHash addr)
    then (false, Some ("Address is not a pay-to-pubkey-hash address: " +:+ address))
    else
      match base64_DecodeString signature with
      | Err err => (false, Some ("Malformed base64 encoding: " +:+ err))
      | Ok sig =>
        match RecoverCompact sig (expectedMessageHash message) with
        | Err _ => (false, None)
        | Ok (pk, wasCompressed) =>
          let serializedPK :=
            if wasCompressed then SerializeCompressed pk
            else SerializeUncompressed pk in
          match NewAddressSecpPubKey serializedPK (activeNetParams g) with
          | Err _ => (false, None)
          | Ok a => (bool_decide (EncodeAddress a = address), None)
          end
        end
      end
  end.

(** ** dcrdata queries

    Each returns its result and the requests it made. *)

Definition bestBlock (env : Env) (settings : gmap string string)
  : res BlockDataBasic * list Event :=
  let url := setting settings "dcrdata" +:+ "api/block/best" in
  (getBlock env url, [EvHttpGet url]).

Definition FormatUint (x : Z) : string := pretty (Z.to_N x).

Definition uint32 (x : Z) : Z := x `mod` 2 ^ 32.

Definition block (env : Env) (settings : gmap string string) (blk : Z)
  : res BlockDataBasic * list Event :=
  let h := FormatUint blk in
  let url := setting settings "dcrdata" +:+ "api/block/" +:+ h in
  (getBlock env url, [EvHttpGet url]).

Definition snapshot (env : Env) (settings : gmap string string) (hash : string)
  : res (list string) * list Event :=
  let url := setting settings "dcrdata" +:+ "api/stake/pool/b/" +:+ hash
             +:+ "/full?sort=true" in
  (getTickets env url, [EvHttpGet url]).

(** The body of the loop over [ttx.Vout]; the state is
    [(bestAddr, bestAmount)]. *)
Definition commitStep (best : string * Qc) (v : Vout) : string * Qc :=
  match CommitAmt (ScriptPubKeyDecoded v) with
  | None => best
  | Some amt =>
    if decide (best.2 < amt)%Qc then
      match Addresses (ScriptPubKeyDecoded v) with
      | [] => best
      | a :: _ => (a, amt)
      end
    else best
  end.

Definition largestCommitmentAddress (env : Env) (settings : gmap string string)
    (hash : string) : res string * list Event :=
  let url := setting settings "dcrdata" +:+ "api/tx/" +:+ hash in
  (match getTx env url with
   | Err err => Err err
   | Ok ttx =>
     let best := foldl commitStep ("", 0%Qc) (Vout_ ttx) in
     if decide (best.1 = "" ∨ best.2 = 0%Qc)
     then Err ("no best commitment address found: " +:+ TxID ttx)
     else Ok best.1
   end, [EvHttpGet url]).

End Decred.

(** ** The plugin commands are stateful: a small monad

    A computation reads and writes the [World]; it ends with a value or
    with a panic. *)

Inductive outcome (A : Type) : Type :=
| Done (a : A)
| Panicked (msg : string).
Arguments Done {A} a.
Arguments Panicked {A} msg.

Definition M (A : Type) : Type := World → outcome A * World.

#[global] Instance M_ret : MRet M := λ A a w, (Done a, w).
#[global] Instance M_bind : MBind M := λ A B f m w,
  match m w with
  | (Done a, w') => f a w'
  | (Panicked msg, w') => (Panicked msg, w')
  end.

Definition panic {A} (msg : string) : M A := λ w, (Panicked msg, w).

Definition logged (evs : list Event) (w : World) : World :=
  {| decredPluginSettings := decredPluginSettings w;
     disk := disk w; trace := trace w ++ evs |}.

Definition emit (evs : list Event) : M unit := λ w, (Done (), logged evs w).

(** Run a query and record the requests it made. *)
Definition query {A} (q : A * list Event) : M A := emit q.2;; mret q.1.

Definition getSettings : M (gmap string string) := λ w,
  (Done (decredPluginSettings w), w).

(** [defer]: the clean-up runs when the body returns and when it panics. *)
Definition defer {A} (cleanup : M unit) (body : M A) : M A := λ w,
  let '(o, w') := body w in (o, (cleanup w').2).

Fixpoint forEach {A S} (body : A → S → M S) (l : list A) (s : S) : M S :=
  match l with
  | [] => mret s
  | a :: l' => s' ← body a s; forEach body l' s'
  end.

(** [os.OpenFile(path, O_RDWR|O_CREATE, 0666)] once the call succeeded:
    the file exists afterwards; its records are what a decoder on the new
    handle will read. *)
Definition openCreate (path : string) : M (list LedgerItem) := λ w,
  match disk w !! path with
  | Some items => (Done items, w)
  | None => (Done [], {| decredPluginSettings := decredPluginSettings w;
                         disk := <[path := []]> (disk w); trace := trace w |})
  end.

(** [Seek(0, 2)] then [Encode]: one record at the end of the file. *)
Definition appendRecord (path : string) (cv : CastVote.t) : M unit := λ w,
  (Done (), {| decredPluginSettings := decredPluginSettings w;
               disk := <[path := default [] (disk w !! path) ++ [Stored cv]]> (disk w);
               trace := trace w ++ [EvWrite path cv] |}).

(** [for _, v := range m]: the entries of the map in an order the runtime
    picks, given as a ranking of the keys. *)
Definition rankLe {V} (rank : string → nat) (a b : string * V) : Prop :=
  (rank a.1 ≤ rank b.1)%nat.

#[global] Instance rankLe_dec {V} (rank : string → nat) : RelDecision (@rankLe V rank).
Proof. intros a b. unfold rankLe. apply _. Defined.

Definition rangeMap {V} (rank : string → nat) (m : gmap string V) : list (string * V) :=
  merge_sort (rankLe rank) (map_to_list m).

Record dedupVote := {
  vote : CastVote.t;     (* &votes[k] *)
  index : nat }.

Record file := {
  fileHandle : string;            (* the path the handle is open on *)
  content : gset string }.        (* [token+ticket] *)

Definition voteKey (v : CastVote.t) : string :=
  CastVote.Token v +:+ CastVote.Ticket v.

Section Plugin.
Context `{Primitives}.

(** ** pluginStartVote *)

Definition pluginStartVote (g : gitBackEnd) (env : Env) (payload : string)
  : M (res string) :=
  match DecodeVote (bytesOf payload) with
  | Err err => mret (Err ("DecodeVote " +:+ err))
  | Ok vote =>
    match ConvertStringToken (Vote_Token vote) with
    | Err err => mret (Err ("ConvertStringToken " +:+ err))
    | Ok token =>
      settings ← getSettings;
      (* 1. Get best block *)
      bb ← query (bestBlock env settings);
      match bb with
      | Err err => mret (Err ("bestBlock " +:+ err))
      | Ok bb =>
        let maturity := uint32 (TicketMaturity (activeNetParams g)) in
        if decide (Height bb < maturity)%Z
        then mret (Err "invalid height")
        else
          (* 2. Subtract TicketMaturity from block height *)
          sb ← query (block env settings (uint32 (Height bb - maturity)));
          match sb with
          | Err err => mret (Err ("bestBlock " +:+ err))
          | Ok snapshotBlock =>
            (* 3. Get ticket pool snapshot *)
            sn ← query (snapshot env settings (Hash snapshotBlock));
            match sn with
            | Err err => mret (Err ("snapshot " +:+ err))
            | Ok tickets =>
              let duration := 2016%Z in
              let svr := StartVoteReply.mk
                (FormatUint (Height snapshotBlock))
                (Hash snapshotBlock)
                (FormatUint (uint32 (Height snapshotBlock + duration)))
                tickets in
              match EncodeStartVoteReply svr with
              | Err err => mret (Err ("EncodeStartVoteReply: " +:+ err))
              | Ok svrb =>
                let streams :=
                  [ {| ID := MDStreamVoteBits; Payload := payload |};
                    {| ID := MDStreamVoteSnapshot; Payload := stringOf svrb |} ] in
                emit [EvUpdateVettedMetadata token streams];;
                match UpdateVettedMetadata env token streams with
                | Some err => mret (Err ("UpdateVettedMetadata: " +:+ err))
                | None => mret (Ok (stringOf svrb))
                end
              end
            end
          end
      end
    end
  end.

(** ** validateVote *)

Definition validateVote (g : gitBackEnd) (env : Env) (settings : gmap string string)
    (token ticket votebit signature : string) : option string * list Event :=
  let '(r, evs) := largestCommitmentAddress env settings ticket in
  match r with
  | Err err => (Some err, evs)
  | Ok addr =>
    let msg := token +:+ ticket +:+ votebit in
    match hex_DecodeString signature with
    | Err err => (Some err, evs)
    | Ok sig =>
      let b64 := base64_EncodeToString sig in
      let evs := evs ++ [EvVerifyMessage addr msg b64] in
      match verifyMessage g addr msg b64 with
      | (_, Some err) => (Some err, evs)
      | (validated, None) =>
        if validated then (None, evs)
        else (Some "could not verify message", evs)
      end
    end
  end.

(** ** pluginCastVotes *)

Definition duplicateVote (v : CastVote.t) : string :=
  "duplicate vote token " +:+ CastVote.Token v +:+ " ticket " +:+ CastVote.Ticket v.

(** One turn of the loop that verifies the signatures; [k] is the index
    of [v] in the batch. *)
Definition castStep (g : gitBackEnd) (env : Env) (settings : gmap string string)
    (fi : FullIdentity) (k : nat) (v : CastVote.t)
    (st : list CastVoteReply.t * gmap string dedupVote)
  : (list CastVoteReply.t * gmap string dedupVote) * list Event :=
  let '(cbr, dedupVotes) := st in
  let key := voteKey v in
  match dedupVotes !! key with
  | Some _ =>
    ((alter (CastVoteReply.setError (duplicateVote v)) k cbr, dedupVotes), [])
  | None =>
    let cbr := alter (CastVoteReply.setClientSignature (CastVote.Signature v)) k cbr in
    let '(err, evs) :=
      validateVote g env settings (CastVote.Token v) (CastVote.Ticket v)
                   (CastVote.VoteBit v) (CastVote.Signature v) in
    match err with
    | Some e => ((alter (CastVoteReply.setError e) k cbr, dedupVotes), evs)
    | None =>
      let signature := SignMessage fi (bytesOf (CastVote.Signature v)) in
      ((alter (CastVoteReply.setSignature (hex_EncodeToString signature)) k cbr,
        <[key := {| vote := v; index := k |}]> dedupVotes), evs)
    end
  end.

Fixpoint castLoop (g : gitBackEnd) (env : Env) (settings : gmap string string)
    (fi : FullIdentity) (k : nat) (votes : list CastVote.t)
    (st : list CastVoteReply.t * gmap string dedupVote)
  : (list CastVoteReply.t * gmap string dedupVote) * list Event :=
  match votes with
  | [] => (st, [])
  | v :: votes' =>
    let '(st1, evs1) := castStep g env settings fi k v st in
    let '(st2, evs2) := castLoop g env settings fi (S k) votes' st1 in
    (st2, evs1 ++ evs2)
  end.

(** Decode file content: every record until the end of the file. *)
Fixpoint decodeFile (items : list LedgerItem) (cvs : list CastVote.t)
  : M (list CastVote.t) :=
  match items with
  | [] => mret cvs
  | Stored cv :: items' => decodeFile items' (cvs ++ [cv])
  | Corrupt err :: _ => panic ("zzz " +:+ err)
  end.

(** Recreate keys. *)
Fixpoint recreateKeys (cvs : list CastVote.t) (content : gset string)
  : M (gset string) :=
  match cvs with
  | [] => mret content
  | vv :: cvs' =>
    let key := voteKey vv in
    if decide (key ∈ content) then panic "yy"
    else recreateKeys cvs' ({[key]} ∪ content)
  end.

(** [filepath.Join(g.vetted, token, "votes")] *)
Definition votesPath (g : gitBackEnd) (token : string) : string :=
  filepath_Join [vetted g; token; "votes"].

(** Lazily open files and recreate content. *)
Definition openVotes (g : gitBackEnd) (env : Env) (token : string) : M file :=
  let path := votesPath g token in
  emit [EvOpenFile path];;
  match osOpenFile env path with
  | Some err => panic ("x " +:+ err)
  | None =>
    items ← openCreate path;
    cvs ← decodeFile items [];
    content ← recreateKeys cvs ∅;
    mret {| fileHandle := path; content := content |}
  end.

Definition alreadyVoted : string := "ticket already voted on proposal".

(** One turn of the loop over [dedupVotes] that checks for dups and
    appends. *)
Definition storeVote (g : gitBackEnd) (env : Env) (dedupVotes : gmap string dedupVote)
    (v : dedupVote) (st : gmap string file * list CastVoteReply.t)
  : M (gmap string file * list CastVoteReply.t) :=
  let '(files, cbr) := st in
  let token := CastVote.Token (vote v) in
  ff ← match files !! token with
       | Some f => mret (f, files)
       | None => f ← openVotes g env token; mret (f, <[token := f]> files)
       end;
  let '(f, files) := ff in
  (* Check for dups in file content *)
  let key := voteKey (vote v) in
  if decide (key ∈ content f) then
    let index := default 0 (index <$> dedupVotes !! key) in
    mret (files, alter (CastVoteReply.setError alreadyVoted) index cbr)
  else
    (* Append vote *)
    match fileSeek env (fileHandle f) with
    | Some err => panic ("y " +:+ err)
    | None =>
      match fileEncode env (fileHandle f) (vote v) with
      | Some err => panic ("z " +:+ err)
      | None => appendRecord (fileHandle f) (vote v);; mret (files, cbr)
      end
    end.

Definition closeFile (kv : string * file) (_ : unit) : M unit :=
  emit [EvClose (fileHandle kv.2)].

Definition encodeReplies (cbr : list CastVoteReply.t) : res string :=
  match EncodeCastVoteReplies cbr with
  | Err err => Err ("Could not encode CastVoteReply " +:+ err)
  | Ok reply => Ok (stringOf reply)
  end.

(** [pluginCastVotes] up to the point where the reply is encoded: the
    result is the slice [cbr] the function has built, or the error it
    returns. *)
Definition castVoteReplies (g : gitBackEnd) (env : Env) (payload : string)
  : M (res (list CastVoteReply.t)) :=
  match DecodeCastVotes (bytesOf payload) with
  | Err err => mret (Err ("DecodeVote " +:+ err))
  | Ok votes =>
    settings ← getSettings;
    match settings !! decredPluginIdentity with
    | None => mret (Err "full identity not set")
    | Some fiJSON =>
      match UnmarshalFullIdentity (bytesOf fiJSON) with
      | Err err => mret (Err err)
      | Ok fi =>
        (* Go over all votes and verify signature *)
        st ← query (castLoop g env settings fi 0 votes
                      (replicate (length votes) CastVoteReply.zero, ∅));
        let '(cbr, dedupVotes) := st in
        emit [EvLock];;
        match lockLock env with
        | Some err =>
          mret (Err ("pluginCastVotes: lock error try again later: " +:+ err))
        | None =>
          defer (emit [EvUnlock])
            (if shutdown g then mret (Err ErrShutdown)
             else
               emit [EvGitCheckout (unvetted g) "master"];;
               match gitCheckout env (unvetted g) "master" with
               | Some err => mret (Err err)
               | None =>
                 emit [EvGitPull (unvetted g)];;
                 match gitPull env (unvetted g) true with
                 | Some err => mret (Err err)
                 | None =>
                   (* Check for dups *)
                   st ← forEach (λ kv, storeVote g env dedupVotes kv.2)
                          (rangeMap (rangeDedupVotes env) dedupVotes) (∅, cbr);
                   let '(files, cbr) := st in
                   (* Unwind all opens *)
                   forEach closeFile (rangeMap (rangeFiles env) files) ();;
                   mret (Ok cbr)
                 end
               end)
        end
      end
    end
  end.

(** The whole command: the encoding of the reply is the last statement
    before the deferred unlock, and it touches nothing. *)
Definition pluginCastVotes (g : gitBackEnd) (env : Env) (payload : string)
  : M (res string) := λ w,
  match castVoteReplies g env payload w with
  | (Done (Ok cbr), w') => (Done (encodeReplies cbr), w')
  | (Done (Err err), w') => (Done (Err err), w')
  | (Panicked msg, w') => (Panicked msg, w')
  end.

End Plugin.

(** ** The plugin descriptor and the best-block command *)

Module PluginSetting.
Record t := mk {
  Key : string;
  Value : string }.
End PluginSetting.

Module Plugin.
Record t := mk {
  ID : string;
  Version : string;
  Settings : list PluginSetting.t }.
End Plugin.

Section PluginDescriptor.
(** [decredplugin.ID] and [decredplugin.Version], declared in package
    decredplugin. *)
Variables (decredplugin_ID decredplugin_Version : string).

(** [getDecredPlugin]: builds the descriptor and replaces the settings map
    by a fresh one filled from the descriptor's settings. *)
Definition getDecredPlugin (testnet : bool) : M Plugin.t := λ w,
  let decredPlugin := Plugin.mk decredplugin_ID decredplugin_Version [] in
  let decredPlugin :=
    if testnet
    then Plugin.mk (Plugin.ID decredPlugin) (Plugin.Version decredPlugin)
           (Plugin.Settings decredPlugin
            ++ [PluginSetting.mk "dcrdata" "https://testnet.dcrdata.org:443/"])
    else Plugin.mk (Plugin.ID decredPlugin) (Plugin.Version decredPlugin)
           (Plugin.Settings decredPlugin
            ++ [PluginSetting.mk "dcrdata" "https://dcrdata.org:443/"]) in
  (* Initialize settings map *)
  let settings :=
    foldl (λ (m : gmap string string) v,
             <[PluginSetting.Key v := PluginSetting.Value v]> m)
          ∅ (Plugin.Settings decredPlugin) in
  (Done decredPlugin,
   {| decredPluginSettings := settings; disk := disk w; trace := trace w |}).

End PluginDescriptor.

Section BestBlock.
Context `{Primitives}.

Definition pluginBestBlock (g : gitBackEnd) (env : Env) : M (res string) :=
  settings ← getSettings;
  bb ← query (bestBlock env settings);
  match bb with
  | Err err => mret (Err err)
  | Ok bb => mret (Ok (FormatUint (Height bb)))
  end.

End BestBlock.

(** ** A small concrete instance

    Toy library code and a toy outside world, to run the commands on
    concrete batches.  A toy signature is valid for an address when its
    bytes spell the address; the toy identity signs by prefixing its name. *)

Module Demo.

Definition joinWith (sep : string) (l : list string) : string :=
  foldr (λ s acc, if decide (acc = "") then s else s +:+ sep +:+ acc) "" l.

Definition vote1 : CastVote.t := CastVote.mk "abc123" "T1" "yes" "DsAlice".
Definition vote1bad : CastVote.t := CastVote.mk "abc123" "T1" "yes" "DsMallory".
Definition vote2 : CastVote.t := CastVote.mk "abc123" "T2" "no" "DsBob".
Definition vote3 : CastVote.t := CastVote.mk "fff000" "T1" "yes" "DsAlice".

Definition decodeBatch (payload : string) : res (list CastVote.t) :=
  if decide (payload = "one") then Ok [vote1]
  else if decide (payload = "retry") then Ok [vote1bad; vote1]
  else if decide (payload = "twice") then Ok [vote1; vote1]
  else if decide (payload = "scenario") then Ok [vote1; vote1; vote1bad]
  else if decide (payload = "mixed") then Ok [vote1; vote2; vote3]
  else if decide (payload = "empty") then Ok []
  else Err "unexpected end of JSON input".

Definition encodeReply (r : CastVoteReply.t) : string :=
  "{" +:+ CastVoteReply.ClientSignature r +:+ "|" +:+ CastVoteReply.Signature r
      +:+ "|" +:+ CastVoteReply.Error r +:+ "}".

Definition encodeSession (svr : StartVoteReply.t) : string :=
  StartVoteReply.StartBlockHeight svr +:+ "," +:+ StartVoteReply.StartBlockHash svr
  +:+ "," +:+ StartVoteReply.EndHeight svr +:+ ","
  +:+ joinWith ";" (StartVoteReply.EligibleTickets svr).

#[global] Instance primitives : Primitives := {|
  Params := Z;
  TicketMaturity := λ p, p;
  Address := string;
  PublicKey := bytes;
  DecodeAddress := λ s, if decide (s = "") then Err "empty address" else Ok s;
  isAddressPubKeyHash := λ a, bool_decide (a ≠ "DcScript");
  WriteVarString := bytesOf;
  HashB := λ b, b;
  RecoverCompact := λ sig _,
    match sig with
    | [] => Err "invalid compact signature size"
    | _ => Ok (sig, true)
    end;
  SerializeCompressed := λ pk, pk;
  SerializeUncompressed := λ pk, pk;
  NewAddressSecpPubKey := λ pk _,
    if decide (stringOf pk = "DsOffCurve") then Err "pubkey is not on the curve"
    else Ok (stringOf pk);
  EncodeAddress := λ a, a;
  base64_DecodeString := λ s,
    if decide (s = "!") then Err "illegal base64 data" else Ok (bytesOf s);
  base64_EncodeToString := stringOf;
  hex_DecodeString := λ s,
    if decide (s = "zz") then Err "invalid byte" else Ok (bytesOf s);
  hex_EncodeToString := stringOf;
  filepath_Join := joinWith "/";
  FullIdentity := string;
  UnmarshalFullIdentity := λ b,
    match b with [] => Err "unexpected end of JSON input" | _ => Ok (stringOf b) end;
  SignMessage := λ fi msg, bytesOf fi ++ msg;
  ConvertStringToken := λ s,
    if decide (s = "") then Err "invalid censorship token" else Ok (bytesOf s);
  Vote := string;
  Vote_Token := λ v, v;
  DecodeVote := λ b,
    match b with [] => Err "unexpected end of JSON input" | _ => Ok (stringOf b) end;
  EncodeStartVoteReply := λ svr, Ok (bytesOf (encodeSession svr));
  DecodeCastVotes := λ b, decodeBatch (stringOf b);
  EncodeCastVoteReplies := λ cbr, Ok (bytesOf (joinWith "," (encodeReply <$> cbr)));
  MDStreamVoteBits := 14;
  MDStreamVoteSnapshot := 15;
  ErrShutdown := "backend is shutdown" |}.

Definition backend (maturity : Z) : gitBackEnd := {|
  activeNetParams := maturity;
  shutdown := false;
  unvetted := "unvetted";
  vetted := "vetted" |}.

Definition output (amt : option Qc) (addrs : list string) : Vout :=
  {| ScriptPubKeyDecoded := {| CommitAmt := amt; Addresses := addrs |} |}.

Definition amount (n : Z) : Qc := Qc_of_Z n.

(** Ticket T1 commits to Alice, T2 to Bob. *)
Definition ticketTx (url : string) : res TrimmedTx :=
  if decide (url = "dcrdata/api/tx/T1") then
    Ok {| TxID := "T1";
          Vout_ := [output None ["DsNobody"]; output (Some (amount 7)) ["DsAlice"];
                    output (Some (amount 3)) ["DsCarol"]] |}
  else if decide (url = "dcrdata/api/tx/T2") then
    Ok {| TxID := "T2"; Vout_ := [output (Some (amount 5)) ["DsBob"]] |}
  else if decide (url = "dcrdata/api/tx/T3") then
    Ok {| TxID := "T3";
          Vout_ := [output (Some (amount 10)) []; output (Some (amount 5)) ["DsDave"]] |}
  else if decide (url = "dcrdata/api/tx/T4") then
    Ok {| TxID := "T4";
          Vout_ := [output (Some (amount 5)) [""]; output (Some (amount 3)) ["DsErin"]] |}
  else Err "404 page not found".

(** A chain whose best block is at height [best] and that answers a query
    by height with the block of that height. *)
Definition chain (best : Z) (url : string) : res BlockDataBasic :=
  if decide (url = "dcrdata/api/block/best")
  then Ok {| Height := best; Hash := "hash" +:+ FormatUint best |}
  else
    match find (λ h, bool_decide (url = "dcrdata/api/block/" +:+ FormatUint h))
               [(best - 16)%Z; best] with
    | Some h => Ok {| Height := h; Hash := "hash" +:+ FormatUint h |}
    | None => Err "404 page not found"
    end.

Definition pool (url : string) : res (list string) :=
  Ok ["T1"; "T2"].

Definition env (best : Z) : Env := {|
  getBlock := chain best;
  getTickets := pool;
  getTx := ticketTx;
  lockLock := None;
  gitCheckout := λ _ _, None;
  gitPull := λ _ _, None;
  UpdateVettedMetadata := λ _ _, None;
  osOpenFile := λ _, None;
  fileSeek := λ _, None;
  fileEncode := λ _ _, None;
  rangeDedupVotes := String.length;
  rangeFiles := String.length |}.

Definition settings : gmap string string :=
  {[ "dcrdata" := "dcrdata/"; "fullidentity" := "politeiad" ]}.

Definition world (d : gmap string (list LedgerItem)) : World :=
  {| decredPluginSettings := settings; disk := d; trace := [] |}.

End Demo.

(** ** Vocabulary of the statements *)

(** An output counts for the choice of the commitment address when it has
    a commitment amount and at least one address. *)
Definition eligibleAmount (v : Vout) (a : Qc) : Prop :=
  CommitAmt (ScriptPubKeyDecoded v) = Some a ∧ Addresses (ScriptPubKeyDecoded v) ≠ [].

(** Output [i] has the largest amount among the eligible outputs, is the
    earliest such output, its amount is positive and [addr] is its first
    address. *)
Definition selectedOutput (vout : list Vout) (i : nat) (addr : string) : Prop :=
  ∃ v a rest,
    vout !! i = Some v ∧
    CommitAmt (ScriptPubKeyDecoded v) = Some a ∧
    Addresses (ScriptPubKeyDecoded v) = addr :: rest ∧
    (0 < a)%Qc ∧
    (∀ j v' a', j < i → vout !! j = Some v' → eligibleAmount v' a' → (a' < a)%Qc) ∧
    (∀ j v' a', i < j → vout !! j = Some v' → eligibleAmount v' a' → (a' ≤ a)%Qc).

(** The reading of the sentence about [largestCommitmentAddress] that
    looks at the amounts alone: [addr] is the first address of an output
    whose amount is above the amount of every earlier output. *)
Definition aboveEarlierOutputs (vout : list Vout) (addr : string) : Prop :=
  ∃ i v a rest,
    vout !! i = Some v ∧
    CommitAmt (ScriptPubKeyDecoded v) = Some a ∧
    Addresses (ScriptPubKeyDecoded v) = addr :: rest ∧
    (∀ j v' a', j < i → vout !! j = Some v' →
       CommitAmt (ScriptPubKeyDecoded v') = Some a' → (a' < a)%Qc).

Definition positiveWithAddresses (v : Vout) : Prop :=
  ∃ a, eligibleAmount v a ∧ (0 < a)%Qc.

Section Vocabulary.
Context `{Primitives}.

(** The outcome of [validateVote] on a vote, without the requests made. *)
Definition validated (g : gitBackEnd) (env : Env) (settings : gmap string string)
    (v : CastVote.t) : option string :=
  (validateVote g env settings (CastVote.Token v) (CastVote.Ticket v)
                (CastVote.VoteBit v) (CastVote.Signature v)).1.

(** The counter-signature of identity [fi] over the signature of a vote. *)
Definition counterSignature (fi : FullIdentity) (v : CastVote.t) : string :=
  hex_EncodeToString (SignMessage fi (bytesOf (CastVote.Signature v))).

(** The four shapes of an entry of the reply. *)
Definition duplicateReply (v : CastVote.t) : CastVoteReply.t :=
  CastVoteReply.mk "" "" (duplicateVote v).
Definition invalidReply (v : CastVote.t) (e : string) : CastVoteReply.t :=
  CastVoteReply.mk (CastVote.Signature v) "" e.
Definition signedReply (fi : FullIdentity) (v : CastVote.t) : CastVoteReply.t :=
  CastVoteReply.mk (CastVote.Signature v) (counterSignature fi v) "".
Definition alreadyVotedReply (fi : FullIdentity) (v : CastVote.t) : CastVoteReply.t :=
  CastVoteReply.mk (CastVote.Signature v) (counterSignature fi v) alreadyVoted.

(** The state of the verification loop of [pluginCastVotes] on a batch:
    the replies and the dedup map after the whole batch went through. *)
Definition verified (g : gitBackEnd) (env : Env) (settings : gmap string string)
    (fi : FullIdentity) (votes : list CastVote.t)
  : list CastVoteReply.t * gmap string dedupVote :=
  (castLoop g env settings fi 0 votes
     (replicate (length votes) CastVoteReply.zero, ∅)).1.

(** What holds of the replies [cbr] (a slice of length [n]) and of the
    dedup map after the votes [votes] went through the loop. *)
Definition Phase1 (g : gitBackEnd) (env : Env) (settings : gmap string string)
    (fi : FullIdentity) (votes : list CastVote.t) (n : nat)
    (st : list CastVoteReply.t * gmap string dedupVote) : Prop :=
  length st.1 = n ∧
  (∀ k, (length votes ≤ k)%nat → k < n → st.1 !! k = Some CastVoteReply.zero) ∧
  (∀ key dv, st.2 !! key = Some dv →
     votes !! index dv = Some (vote dv) ∧ voteKey (vote dv) = key ∧
     validated g env settings (vote dv) = None) ∧
  (∀ k v, votes !! k = Some v →
     (∃ dv, st.2 !! voteKey v = Some dv ∧ index dv < k ∧
            st.1 !! k = Some (duplicateReply v)) ∨
     (∃ e, validated g env settings v = Some e ∧
           st.1 !! k = Some (invalidReply v e) ∧
           ∀ dv, st.2 !! voteKey v = Some dv → k < index dv) ∨
     (validated g env settings v = None ∧
      st.2 !! voteKey v = Some {| vote := v; index := k |} ∧
      st.1 !! k = Some (signedReply fi v))).

End Vocabulary.

(** A reply entry is an acceptance when it has no error and carries a
    counter-signature. *)
Definition accepted (r : CastVoteReply.t) : Prop :=
  CastVoteReply.Error r = "" ∧ CastVoteReply.Signature r ≠ "".

(** The votes stored in a file, and their keys. *)
Definition storedVotes (items : list LedgerItem) : list CastVote.t :=
  omap (λ it, match it with Stored cv => Some cv | Corrupt _ => None end) items.

Definition ledgerKeys (items : list LedgerItem) : list string :=
  voteKey <$> storedVotes items.

Definition isStored (it : LedgerItem) : Prop :=
  match it with Stored _ => True | Corrupt _ => False end.

(** The number of entries of a file for token [T] and ticket [K]. *)
Definition ledgerCount (items : list LedgerItem) (T K : string) : nat :=
  length (filter (λ cv, CastVote.Token cv = T ∧ CastVote.Ticket cv = K)
                 (storedVotes items)).

(** No file holds two entries for the same token and ticket. *)
Definition NoDoubleVote (w : World) : Prop :=
  ∀ path items T K, disk w !! path = Some items → (ledgerCount items T K ≤ 1)%nat.

(** A file the replay accepts: every record decodes and no key repeats. *)
Definition wellFormed (items : list LedgerItem) : Prop :=
  Forall isStored items ∧ NoDup (ledgerKeys items).

(** The world after [os.OpenFile] with [O_CREATE] on [path]. *)
Definition created (path : string) (w : World) : World :=
  {| decredPluginSettings := decredPluginSettings w;
     disk := <[path := default [] (disk w !! path)]> (disk w);
     trace := trace w |}.

(** From [w] to [w']: the settings stay, files only grow at their end, and
    no double vote appears. *)
Definition grows (w w' : World) : Prop :=
  decredPluginSettings w' = decredPluginSettings w ∧
  (∀ path items, disk w !! path = Some items →
     ∃ more, disk w' !! path = Some (items ++ more)) ∧
  (NoDoubleVote w → NoDoubleVote w').

(** The world after one record was appended to [path]. *)
Definition appended (path : string) (cv : CastVote.t) (w : World) : World :=
  (appendRecord path cv w).2.

Section LedgerVocabulary.
Context `{Primitives}.

(** A handle of the map [files], opened on the file of token [tok]: the
    file passed the replay, every key of [content] is in the file, and a
    key of the file that [content] misses is one of [batch], the keys this
    call has appended since. *)
Definition HandleOK (g : gitBackEnd) (env : Env) (batch : gset string) (w : World)
    (tok : string) (f : file) : Prop :=
  fileHandle f = votesPath g tok ∧
  osOpenFile env (fileHandle f) = None ∧
  ∃ items, disk w !! fileHandle f = Some items ∧ wellFormed items ∧
    (∀ key, key ∈ content f → key ∈ ledgerKeys items) ∧
    (∀ key, key ∈ ledgerKeys items → key ∈ content f ∨ key ∈ batch).

Definition StoreInv (g : gitBackEnd) (env : Env) (batch : gset string)
    (files : gmap string file) (w : World) : Prop :=
  ∀ tok f, files !! tok = Some f → HandleOK g env batch w tok f.

(** The vote is in the file of its token. *)
Definition inLedger (g : gitBackEnd) (w : World) (v : CastVote.t) : Prop :=
  ∃ items, disk w !! votesPath g (CastVote.Token v) = Some items ∧
           voteKey v ∈ ledgerKeys items.

(** The index [storeVote] reports a ledger hit at. *)
Definition hitIndex (dedupVotes : gmap string dedupVote) (dv : dedupVote) : nat :=
  default 0 (index <$> dedupVotes !! voteKey (vote dv)).

(** The keys of the votes a walk over the dedup map visits. *)
Definition keysOf (L : list (string * dedupVote)) : list string :=
  (λ kv, voteKey (vote kv.2)) <$> L.

(** The ledger loop on a batch whose votes are all hits: one more entry
    of the reply gets the error. *)
Definition markHit (dedupVotes : gmap string dedupVote) (c : list CastVoteReply.t)
    (kv : string * dedupVote) : list CastVoteReply.t :=
  alter (CastVoteReply.setError alreadyVoted) (hitIndex dedupVotes kv.2) c.

(** The file of the vote's token can be opened, passes the replay and
    holds the vote. *)
Definition recorded (g : gitBackEnd) (env : Env) (d : gmap string (list LedgerItem))
    (v : CastVote.t) : Prop :=
  osOpenFile env (votesPath g (CastVote.Token v)) = None ∧
  ∃ items, d !! votesPath g (CastVote.Token v) = Some items ∧
           wellFormed items ∧ voteKey v ∈ ledgerKeys items.

End LedgerVocabulary.

(** The world in which the walk over the dedup map starts: the requests
    of the verification loop, the lock, the checkout and the pull are in
    the trace. *)
Definition lockedWorld `{Primitives} (g : gitBackEnd) (evs : list Event) (w : World)
  : World :=
  logged [EvGitPull (unvetted g)]
    (logged [EvGitCheckout (unvetted g) "master"]
       (logged [EvLock] (logged evs w))).

(** The close events of the walk over [files]. *)
Definition closes (env : Env) (files : gmap string file) : list Event :=
  (λ kv, EvClose (fileHandle kv.2)) <$> rangeMap (rangeFiles env) files.

(** The same outside world with another order for the two map walks. *)
Definition reorder (rankVotes rankFiles : string → nat) (env : Env) : Env := {|
  getBlock := getBlock env;
  getTickets := getTickets env;
  getTx := getTx env;
  lockLock := lockLock env;
  gitCheckout := gitCheckout env;
  gitPull := gitPull env;
  UpdateVettedMetadata := UpdateVettedMetadata env;
  osOpenFile := osOpenFile env;
  fileSeek := fileSeek env;
  fileEncode := fileEncode env;
  rangeDedupVotes := rankVotes;
  rangeFiles := rankFiles |}.

(** ** Sequences of commands *)

Inductive command `{Primitives} : Type :=
| CastVotes (g : gitBackEnd) (env : Env) (payload : string)
| StartVote (g : gitBackEnd) (env : Env) (payload : string)
| SetSetting (key value : string).

Definition runCommand `{Primitives} (c : command) (w : World) : World :=
  match c with
  | CastVotes g env payload => (pluginCastVotes g env payload w).2
  | StartVote g env payload => (pluginStartVote g env payload w).2
  | SetSetting key value => setDecredPluginSetting key value w
  end.

Definition runCommands `{Primitives} (cs : list command) (w : World) : World :=
  foldl (λ w c, runCommand c w) w cs.

(** ** More vocabulary: files, events *)

(** The records of the file at [path]; a file that does not exist has
    none, which is how [O_CREATE] makes the code see it. *)
Definition fileAt (d : gmap string (list LedgerItem)) (path : string)
  : list LedgerItem := default [] (d !! path).

(** Requests of the verification loop. *)
Definition queryEvent (e : Event) : Prop :=
  match e with
  | EvHttpGet _ | EvVerifyMessage _ _ _ => True
  | _ => False
  end.

(** What the ledger loop does: it opens files and writes records. *)
Definition ledgerEvent (e : Event) : Prop :=
  match e with
  | EvOpenFile _ | EvWrite _ _ => True
  | _ => False
  end.

Definition lockEvent (e : Event) : Prop := e = EvLock ∨ e = EvUnlock.

(** Every handle of [files] is open on the votes file of its token. *)
Definition PathInv `{Primitives} (g : gitBackEnd) (files : gmap string file) : Prop :=
  ∀ tok f, files !! tok = Some f → fileHandle f = votesPath g tok.

(** From disk [d] to disk [d']: every file is what it was plus records
    appended at its end, each of them one of the votes [vs], stored in the
    file of its own token. *)
Definition wroteOnly `{Primitives} (g : gitBackEnd) (vs : list CastVote.t)
    (d d' : gmap string (list LedgerItem)) : Prop :=
  ∀ path, ∃ more,
    fileAt d' path = fileAt d path ++ more ∧
    Forall (λ it, ∃ v, v ∈ vs ∧ it = Stored v ∧
                       path = votesPath g (CastVote.Token v)) more.

(** Events between the lock and the unlock. *)
Definition gitEvent (e : Event) : Prop :=
  match e with
  | EvGitCheckout _ _ | EvGitPull _ => True
  | _ => False
  end.

Definition closeEvent (e : Event) : Prop :=
  match e with
  | EvClose _ => True
  | _ => False
  end.

Definition insideEvent (e : Event) : Prop :=
  gitEvent e ∨ ledgerEvent e ∨ closeEvent e.

(** * Properties *)

(** ** verifyMessage *)

Section VerifyMessage.
Context `{Primitives}.

(** C5.  Past the address and base64 guards, a failure of the compact
    public-key recovery, or of the reconstruction of an address from the
    recovered key, makes [verifyMessage] answer [false] with a nil error:
    the same answer as for a signature that does not match. *)
Theorem verifyMessage_recovery_failure (g : gitBackEnd)
    (address message signature : string) (addr : Address) (sig : bytes) :
  DecodeAddress address = Ok addr →
  isAddressPubKeyHash addr = true →
  base64_DecodeString signature = Ok sig →
  (isOk (RecoverCompact sig (expectedMessageHash message)) = false ∨
   ∃ pk wasCompressed,
     RecoverCompact sig (expectedMessageHash message) = Ok (pk, wasCompressed) ∧
     isOk (NewAddressSecpPubKey
             (if wasCompressed then SerializeCompressed pk
              else SerializeUncompressed pk) (activeNetParams g)) = false) →
  verifyMessage g address message signature = (false, None).
Proof.
  intros Haddr Hpkh Hsig Hfail. unfold verifyMessage.
  rewrite Haddr, Hpkh, Hsig. simpl.
  destruct Hfail as [Hrec | (pk & c & Hrec & Hnew)].
  - destruct (RecoverCompact sig (expectedMessageHash message)) as [[pk c]|e];
      [discriminate | reflexivity].
  - rewrite Hrec.
    destruct (NewAddressSecpPubKey _ _); [discriminate | reflexivity].
Qed.

End VerifyMessage.

Lemma verifyMessage_recovery_failure_witness :
  verifyMessage (Demo.backend 16) "DsAlice" "abc123T1yes" "" = (false, None)
  ∧ verifyMessage (Demo.backend 16) "DsAlice" "abc123T1yes" "DsOffCurve" = (false, None).
Proof.
  split.
  - apply (verifyMessage_recovery_failure (Demo.backend 16)
             "DsAlice" "abc123T1yes" "" "DsAlice" []); try reflexivity.
    left. reflexivity.
  - apply (verifyMessage_recovery_failure (Demo.backend 16)
             "DsAlice" "abc123T1yes" "DsOffCurve" "DsAlice" (bytesOf "DsOffCurve"));
      try reflexivity.
    right. exists (bytesOf "DsOffCurve"), true. split; reflexivity.
Defined.

(** ** largestCommitmentAddress *)

Section Commitment.
Context `{Primitives}.

Lemma commitStep_cases (best : string * Qc) (v : Vout) :
  (commitStep best v = best ∧ ∀ a, eligibleAmount v a → (a ≤ best.2)%Qc) ∨
  (∃ a addr rest,
     CommitAmt (ScriptPubKeyDecoded v) = Some a ∧
     Addresses (ScriptPubKeyDecoded v) = addr :: rest ∧
     (best.2 < a)%Qc ∧ commitStep best v = (addr, a)).
Proof.
  unfold commitStep, eligibleAmount.
  destruct (CommitAmt (ScriptPubKeyDecoded v)) as [amt|].
  - destruct (decide (best.2 < amt)%Qc) as [Hlt|Hge].
    + destruct (Addresses (ScriptPubKeyDecoded v)) as [|addr rest].
      * left. split; [done|]. by intros a [_ ?].
      * right. by exists amt, addr, rest.
    + left. split; [done|]. intros a [[= <-] _]. by apply Qcnot_lt_le.
  - left. split; [done|]. by intros a [? _].
Qed.

Lemma foldl_commitStep_spec (vout : list Vout) : ∀ best : string * Qc,
  (foldl commitStep best vout = best ∧
   ∀ v a, v ∈ vout → eligibleAmount v a → (a ≤ best.2)%Qc) ∨
  (∃ i v a addr rest,
     vout !! i = Some v ∧
     CommitAmt (ScriptPubKeyDecoded v) = Some a ∧
     Addresses (ScriptPubKeyDecoded v) = addr :: rest ∧
     foldl commitStep best vout = (addr, a) ∧
     (best.2 < a)%Qc ∧
     (∀ j v' a', j < i → vout !! j = Some v' → eligibleAmount v' a' → (a' < a)%Qc) ∧
     (∀ j v' a', i < j → vout !! j = Some v' → eligibleAmount v' a' → (a' ≤ a)%Qc)).
Proof.
  induction vout as [|v0 vout IH]; intros best; simpl.
  - left. split; [done|]. intros v a Hin. by apply elem_of_nil in Hin.
  - destruct (commitStep_cases best v0) as [[Hsame Hle0] | (a0 & addr0 & rest0 & Ha0 & Hr0 & Hlt0 & Hstep)].
    + rewrite Hsame.
      destruct (IH best) as [[Hfin Hle] | (i & v & a & addr & rest & Hi & Ha & Hr & Hfin & Hlt & Hbefore & Hafter)].
      * left. split; [done|]. intros v a [->|Hin]%elem_of_cons; eauto.
      * right. exists (S i), v, a, addr, rest. repeat split; try done.
        -- intros [|j] v' a' Hj Hv' He; simpl in Hv'.
           ++ injection Hv' as <-. eapply Qcle_lt_trans; eauto.
           ++ eapply (Hbefore j); eauto; lia.
        -- intros [|j] v' a' Hj Hv' He; [lia|]. simpl in Hv'.
           eapply (Hafter j); eauto; lia.
    + rewrite Hstep.
      destruct (IH (addr0, a0)) as [[Hfin Hle] | (i & v & a & addr & rest & Hi & Ha & Hr & Hfin & Hlt & Hbefore & Hafter)];
        simpl in *.
      * right. exists 0, v0, a0, addr0, rest0. repeat split; try done.
        -- intros j v' a' Hj. lia.
        -- intros [|j] v' a' Hj Hv' He; [lia|]. simpl in Hv'.
           eapply Hle; eauto. eapply list_elem_of_lookup_2; eauto.
      * right. exists (S i), v, a, addr, rest. repeat split; try done.
        -- eapply Qclt_trans; eauto.
        -- intros [|j] v' a' Hj Hv' He; simpl in Hv'.
           ++ injection Hv' as <-. destruct He as [He _].
              rewrite Ha0 in He. by injection He as <-.
           ++ eapply (Hbefore j); eauto; lia.
        -- intros [|j] v' a' Hj Hv' He; [lia|]. simpl in Hv'.
           eapply (Hafter j); eauto; lia.
Qed.

Lemma selectedOutput_unique (vout : list Vout) (i i' : nat) (addr addr' : string) :
  selectedOutput vout i addr → selectedOutput vout i' addr' → i = i' ∧ addr = addr'.
Proof.
  intros (v & a & rest & Hi & Ha & Hr & Hpos & Hbefore & Hafter)
         (v' & a' & rest' & Hi' & Ha' & Hr' & Hpos' & Hbefore' & Hafter').
  assert (He : eligibleAmount v a) by (split; [done|]; by rewrite Hr).
  assert (He' : eligibleAmount v' a') by (split; [done|]; by rewrite Hr').
  destruct (lt_eq_lt_dec i i') as [[Hlt|Heq]|Hgt].
  - exfalso. eapply Qclt_not_le; [eapply (Hbefore' i v a); eauto|].
    eapply Hafter; eauto.
  - subst i'. split; [done|]. rewrite Hi in Hi'. injection Hi' as <-.
    rewrite Hr in Hr'. by injection Hr'.
  - exfalso. eapply Qclt_not_le; [eapply (Hbefore i' v' a'); eauto|].
    eapply Hafter'; eauto.
Qed.

(** C9 (amended).  Among the outputs that have a commitment amount and a
    non-empty address list, [largestCommitmentAddress] picks the earliest
    one with the largest amount, provided that amount is positive, and
    returns its first address; it fails exactly when no such output has a
    positive amount or when the first address of the output picked is the
    empty string. *)
Theorem largestCommitmentAddress_selection (env : Env) (settings : gmap string string)
    (hash : string) (ttx : TrimmedTx) :
  getTx env (setting settings "dcrdata" +:+ "api/tx/" +:+ hash) = Ok ttx →
  let r := (largestCommitmentAddress env settings hash).1 in
  (∀ addr, r = Ok addr ↔ addr ≠ "" ∧ ∃ i, selectedOutput (Vout_ ttx) i addr) ∧
  (isOk r = false ↔
     (∀ v, v ∈ Vout_ ttx → ¬ positiveWithAddresses v) ∨
     ∃ i, selectedOutput (Vout_ ttx) i "").
Proof.
  intros Htx r. subst r. unfold largestCommitmentAddress. simpl. rewrite Htx.
  destruct (foldl_commitStep_spec (Vout_ ttx) ("", 0%Qc))
    as [[Hfin Hle] | (i & v & a & addr0 & rest & Hi & Ha & Hr & Hfin & Hlt & Hbefore & Hafter)];
    rewrite Hfin; [simpl in Hle | simpl in Hlt].
  - assert (Hnone : ∀ v, v ∈ Vout_ ttx → ¬ positiveWithAddresses v).
    { intros v Hin (a & He & Hpos). eapply Qclt_not_le; eauto. }
    rewrite decide_True by (by left). split.
    + intros addr. split; [done|]. intros (_ & i & v & a & rest & Hi & Ha & Hr & Hpos & _).
      exfalso. eapply (Hnone v); [eapply list_elem_of_lookup_2; eauto|].
      exists a. split; [|done]. split; [done|]. by rewrite Hr.
    + split; [by left | done].
  - assert (Hsel : selectedOutput (Vout_ ttx) i addr0).
    { exists v, a, rest. repeat split; done. }
    assert (Ha0 : a ≠ 0%Qc).
    { intros ->. by eapply Qclt_not_eq in Hlt. }
    destruct (decide (addr0 = "")) as [->|Hne].
    + rewrite decide_True by (by left). split.
      * intros addr. split; [done|]. intros (Hne & i' & Hsel').
        destruct (selectedOutput_unique _ _ _ _ _ Hsel Hsel') as [_ <-]. done.
      * split; [|done]. intros _. right. by exists i.
    + rewrite decide_False by (by intros [?|?]). cbn [fst]. split.
      * intros addr. split.
        -- intros [= <-]. split; [done|]. by exists i.
        -- intros (_ & i' & Hsel').
           by destruct (selectedOutput_unique _ _ _ _ _ Hsel Hsel') as [_ <-].
      * split; [done|]. intros [Hnone | (i' & Hsel')].
        -- exfalso. eapply (Hnone v); [eapply list_elem_of_lookup_2; eauto|].
           exists a. split; [|done]. split; [done|]. by rewrite Hr.
        -- by destruct (selectedOutput_unique _ _ _ _ _ Hsel Hsel') as [_ ->].
Qed.

End Commitment.

Lemma largestCommitmentAddress_selection_witness :
  (largestCommitmentAddress (Demo.env 100) Demo.settings "T1").1 = Ok "DsAlice"
  ↔ "DsAlice" ≠ "" ∧
    ∃ i, selectedOutput
           [Demo.output None ["DsNobody"];
            Demo.output (Some (Demo.amount 7)) ["DsAlice"];
            Demo.output (Some (Demo.amount 3)) ["DsCarol"]] i "DsAlice".
Proof.
  apply (largestCommitmentAddress_selection (Demo.env 100) Demo.settings "T1"
           {| TxID := "T1";
              Vout_ := [Demo.output None ["DsNobody"];
                        Demo.output (Some (Demo.amount 7)) ["DsAlice"];
                        Demo.output (Some (Demo.amount 3)) ["DsCarol"]] |}).
  reflexivity.
Defined.

(** C9, as first stated, fails on the code: with outputs (10, no address)
    and (5, DsDave) the address returned belongs to an output whose amount
    is below that of an earlier output; with outputs (5, first address
    empty) and (3, DsErin) the call fails although an output has a positive
    amount and a non-empty address list. *)
Lemma largestCommitmentAddress_counterexample :
  ((largestCommitmentAddress (Demo.env 100) Demo.settings "T3").1 = Ok "DsDave"
   ∧ ¬ aboveEarlierOutputs
         [Demo.output (Some (Demo.amount 10)) [];
          Demo.output (Some (Demo.amount 5)) ["DsDave"]] "DsDave")
  ∧ (isOk (largestCommitmentAddress (Demo.env 100) Demo.settings "T4").1 = false
     ∧ positiveWithAddresses (Demo.output (Some (Demo.amount 3)) ["DsErin"])).
Proof.
  split; split.
  - vm_compute. reflexivity.
  - intros (i & v & a & rest & Hi & Ha & Hr & Hbefore).
    destruct i as [|[|i]]; simpl in Hi; try discriminate.
    + injection Hi as <-. discriminate Hr.
    + injection Hi as <-. simpl in Ha. injection Ha as <-.
      specialize (Hbefore 0 _ (Demo.amount 10) (Nat.lt_0_succ 0) eq_refl eq_refl).
      vm_compute in Hbefore. discriminate Hbefore.
  - vm_compute. reflexivity.
  - exists (Demo.amount 3). split; [split; [reflexivity | discriminate] |].
    vm_compute. reflexivity.
Qed.

(** ** pluginStartVote *)

Ltac unfoldM :=
  unfold query, emit, getSettings, panic, mbind, M_bind, mret, M_ret.

Lemma uint32_small (x : Z) : (0 ≤ x < 2 ^ 32)%Z → uint32 x = x.
Proof. intros Hx. unfold uint32. by apply Z.mod_small. Qed.

Section StartVote.
Context `{Primitives}.

(** C6.  Once the request and its token are decoded and the best block
    is known, [pluginStartVote] fails with "invalid height" exactly when
    the height of the best block is below the ticket maturity; it has then
    made the best-block query and nothing else (no snapshot fetch, no
    metadata write).  From a height equal to the maturity on it goes on to
    fetch the block at height minus maturity. *)
Theorem pluginStartVote_maturity_gate (g : gitBackEnd) (env : Env)
    (payload : string) (w : World) (vote : Vote) (token : bytes)
    (bb : BlockDataBasic) :
  DecodeVote (bytesOf payload) = Ok vote →
  ConvertStringToken (Vote_Token vote) = Ok token →
  (bestBlock env (decredPluginSettings w)).1 = Ok bb →
  (0 ≤ Height bb < 2 ^ 32)%Z →
  (0 ≤ TicketMaturity (activeNetParams g) < 2 ^ 32)%Z →
  let maturity := TicketMaturity (activeNetParams g) in
  let settings := decredPluginSettings w in
  let run := pluginStartVote g env payload w in
  (run.1 = Done (Err "invalid height") ↔ (Height bb < maturity)%Z) ∧
  ((Height bb < maturity)%Z → run.2 = logged (bestBlock env settings).2 w) ∧
  ((maturity ≤ Height bb)%Z →
     ∃ rest, trace run.2 =
       trace w ++ (bestBlock env settings).2
               ++ (block env settings (Height bb - maturity)).2 ++ rest).
Proof.
  intros Hvote Htoken Hbb HH HM maturity settings run. subst run.
  unfold pluginStartVote. rewrite Hvote, Htoken. unfoldM. cbn [fst snd].
  fold settings. cbn [decredPluginSettings logged].
  change (getBlock env (setting settings "dcrdata" +:+ "api/block/best"))
    with (bestBlock env settings).1.
  fold settings in Hbb. rewrite Hbb. rewrite (uint32_small _ HM). fold maturity.
  destruct (decide (Height bb < maturity)%Z) as [Hlt|Hge].
  - repeat split; try done. intros ?. lia.
  - rewrite uint32_small by lia.
    repeat split.
    + intros Hrun. exfalso. revert Hrun.
      destruct (block env settings _).1 as [sb|e]; [|simpl; intros [=]].
      destruct (snapshot env settings _).1 as [tickets|e]; [|simpl; intros [=]].
      destruct (EncodeStartVoteReply _) as [svrb|e]; [|simpl; intros [=]].
      destruct (UpdateVettedMetadata env token _) as [e|]; simpl; intros [=].
    + intros ?. lia.
    + intros ?. lia.
    + intros _.
      destruct (block env settings _).1 as [sb|e]; cbn [fst snd logged trace];
        [|rewrite <- !(assoc_L (++)); by exists []].
      destruct (snapshot env settings _).1 as [tickets|e]; cbn [fst snd logged trace];
        [|rewrite <- !(assoc_L (++)); eauto].
      destruct (EncodeStartVoteReply _) as [svrb|e]; cbn [fst snd logged trace];
        [|rewrite <- !(assoc_L (++)); eauto].
      destruct (UpdateVettedMetadata env token _) as [e|]; cbn [fst snd logged trace];
        rewrite <- !(assoc_L (++)); eauto.
Qed.

End StartVote.

Lemma pluginStartVote_maturity_gate_witness :
  ((pluginStartVote (Demo.backend 16) (Demo.env 15) "abc123" (Demo.world ∅)).1
     = Done (Err "invalid height") ↔ (15 < 16)%Z)
  ∧ ((pluginStartVote (Demo.backend 16) (Demo.env 16) "abc123" (Demo.world ∅)).1
     = Done (Err "invalid height") ↔ (16 < 16)%Z).
Proof.
  split.
  - apply (pluginStartVote_maturity_gate (Demo.backend 16) (Demo.env 15)
             "abc123" (Demo.world ∅) "abc123" (bytesOf "abc123")
             {| Height := 15; Hash := "hash15" |});
      try reflexivity; simpl; lia.
  - apply (pluginStartVote_maturity_gate (Demo.backend 16) (Demo.env 16)
             "abc123" (Demo.world ∅) "abc123" (bytesOf "abc123")
             {| Height := 16; Hash := "hash16" |});
      try reflexivity; simpl; lia.
Defined.

Section StartVoteSession.
Context `{Primitives}.

(** C7 (amended).  A [pluginStartVote] call that succeeds with best-block
    height [H] and maturity [M] has asked dcrdata for the block at height
    [H - M]; the session it returns starts at the height that block
    reports, carries that block's hash, ends at the start height plus 2016
    reduced modulo 2^32, and lists exactly the ticket pool fetched for that
    block's hash.  When the block reports the height it was asked for and
    the sum stays below 2^32, the start is [H - M] and the end is
    [H - M + 2016]. *)
Theorem pluginStartVote_session (g : gitBackEnd) (env : Env) (payload : string)
    (w w' : World) (reply : string) (bb : BlockDataBasic) :
  (bestBlock env (decredPluginSettings w)).1 = Ok bb →
  (0 ≤ Height bb < 2 ^ 32)%Z →
  (0 ≤ TicketMaturity (activeNetParams g) < 2 ^ 32)%Z →
  pluginStartVote g env payload w = (Done (Ok reply), w') →
  let maturity := TicketMaturity (activeNetParams g) in
  let settings := decredPluginSettings w in
  (maturity ≤ Height bb)%Z ∧
  ∃ snapshotBlock tickets svr svrb,
    (block env settings (Height bb - maturity)).1 = Ok snapshotBlock ∧
    (snapshot env settings (Hash snapshotBlock)).1 = Ok tickets ∧
    EncodeStartVoteReply svr = Ok svrb ∧
    reply = stringOf svrb ∧
    StartVoteReply.StartBlockHeight svr = FormatUint (Height snapshotBlock) ∧
    StartVoteReply.StartBlockHash svr = Hash snapshotBlock ∧
    StartVoteReply.EndHeight svr
      = FormatUint ((Height snapshotBlock + 2016) `mod` 2 ^ 32) ∧
    StartVoteReply.EligibleTickets svr = tickets ∧
    (Height snapshotBlock = (Height bb - maturity)%Z →
     (Height bb - maturity + 2016 < 2 ^ 32)%Z →
     StartVoteReply.StartBlockHeight svr = FormatUint (Height bb - maturity) ∧
     StartVoteReply.EndHeight svr = FormatUint (Height bb - maturity + 2016)).
Proof.
  intros Hbb HH HM Hrun maturity settings. revert Hrun.
  unfold pluginStartVote.
  destruct (DecodeVote (bytesOf payload)) as [vote|e]; [|by intros [=]].
  destruct (ConvertStringToken (Vote_Token vote)) as [token|e]; [|by intros [=]].
  unfoldM. cbn [fst snd]. fold settings. fold settings in Hbb.
  rewrite Hbb. rewrite (uint32_small _ HM). fold maturity.
  destruct (decide (Height bb < maturity)%Z) as [Hlt|Hge]; [by intros [=]|].
  rewrite (uint32_small (Height bb - maturity)) by lia.
  destruct (block env settings _).1 as [sb|e] eqn:Hsb; [|by intros [=]].
  destruct (snapshot env settings _).1 as [tickets|e] eqn:Hsn; [|by intros [=]].
  destruct (EncodeStartVoteReply _) as [svrb|e] eqn:Hsvr; [|by intros [=]].
  destruct (UpdateVettedMetadata env token _) as [e|]; [by intros [=]|].
  intros [= <- <-]. split; [lia|].
  eexists sb, tickets, _, svrb. split; [done|]. split; [done|].
  split; [exact Hsvr|]. cbn. do 5 (split; [done|]). intros Hh Hsum. rewrite Hh. split; [done|].
  unfold uint32. by rewrite Z.mod_small by lia.
Qed.

End StartVoteSession.

Lemma pluginStartVote_session_witness :
  ∃ snapshotBlock tickets svr svrb,
    (block (Demo.env 100) Demo.settings (100 - 16)).1 = Ok snapshotBlock ∧
    (snapshot (Demo.env 100) Demo.settings (Hash snapshotBlock)).1 = Ok tickets ∧
    EncodeStartVoteReply svr = Ok svrb ∧
    "84,hash84,2100,T1;T2" = stringOf svrb ∧
    StartVoteReply.StartBlockHeight svr = FormatUint (Height snapshotBlock) ∧
    StartVoteReply.StartBlockHash svr = Hash snapshotBlock ∧
    StartVoteReply.EndHeight svr
      = FormatUint ((Height snapshotBlock + 2016) `mod` 2 ^ 32) ∧
    StartVoteReply.EligibleTickets svr = tickets ∧
    (Height snapshotBlock = (100 - 16)%Z →
     (100 - 16 + 2016 < 2 ^ 32)%Z →
     StartVoteReply.StartBlockHeight svr = FormatUint (100 - 16) ∧
     StartVoteReply.EndHeight svr = FormatUint (100 - 16 + 2016)).
Proof.
  refine (proj2 (pluginStartVote_session (Demo.backend 16) (Demo.env 100) "abc123"
           (Demo.world ∅)
           (pluginStartVote (Demo.backend 16) (Demo.env 100) "abc123" (Demo.world ∅)).2
           "84,hash84,2100,T1;T2"
           {| Height := 100; Hash := "hash100" |} _ _ _ _)).
  - reflexivity.
  - simpl. lia.
  - simpl. lia.
  - vm_compute. reflexivity.
Defined.

(** C7, as first stated, fails on the code: with the best block at height
    2^32 - 1 and maturity 16, against a chain that answers with the block
    of the height asked for, the call succeeds and the session starts at
    [H - M] but ends at 1999, not at [H - M + 2016]. *)
Lemma pluginStartVote_session_counterexample :
  let H := (2 ^ 32 - 1)%Z in
  let svr := StartVoteReply.mk "4294967279" "hash4294967279" "1999" ["T1"; "T2"] in
  (pluginStartVote (Demo.backend 16) (Demo.env H) "abc123" (Demo.world ∅)).1
    = Done (Ok (Demo.encodeSession svr))
  ∧ (block (Demo.env H) Demo.settings (H - 16)).1
    = Ok {| Height := H - 16; Hash := "hash4294967279" |}
  ∧ StartVoteReply.StartBlockHeight svr = FormatUint (H - 16)
  ∧ StartVoteReply.EndHeight svr ≠ FormatUint (H - 16 + 2016).
Proof.
  vm_compute. repeat split. discriminate.
Qed.

(** ** pluginCastVotes: the verification loop *)

Section VerifyLoop.
Context `{Primitives}.
Variables (g : gitBackEnd) (env : Env) (settings : gmap string string)
          (fi : FullIdentity).

Lemma castLoop_app (l1 l2 : list CastVote.t) : ∀ k st,
  castLoop g env settings fi k (l1 ++ l2) st =
  let '(st1, evs1) := castLoop g env settings fi k l1 st in
  let '(st2, evs2) := castLoop g env settings fi (k + length l1) l2 st1 in
  (st2, evs1 ++ evs2).
Proof.
  induction l1 as [|v l1 IH]; intros k st; simpl.
  - rewrite Nat.add_0_r. by destruct (castLoop g env settings fi k l2 st).
  - destruct (castStep g env settings fi k v st) as [st1 evs1].
    rewrite IH. destruct (castLoop g env settings fi (S k) l1 st1) as [st2 evs2].
    replace (k + S (length l1)) with (S k + length l1) by lia.
    destruct (castLoop g env settings fi (S k + length l1) l2 st2) as [st3 evs3].
    by rewrite (assoc_L (++)).
Qed.

Lemma castLoop_snoc (l : list CastVote.t) (v : CastVote.t) st :
  (castLoop g env settings fi 0 (l ++ [v]) st).1 =
  (castStep g env settings fi (length l) v (castLoop g env settings fi 0 l st).1).1.
Proof.
  rewrite castLoop_app. destruct (castLoop g env settings fi 0 l st) as [st1 evs1].
  simpl. destruct (castStep g env settings fi (length l) v st1) as [st2 evs2]. done.
Qed.

Lemma Phase1_init (n : nat) : Phase1 g env settings fi [] n (replicate n CastVoteReply.zero, ∅).
Proof.
  unfold Phase1. simpl. split; [apply length_replicate|]. split; [|split].
  - intros k _ Hk. by apply lookup_replicate_2.
  - intros key dv Hdv. by rewrite lookup_empty in Hdv.
  - intros k v Hv. by rewrite lookup_nil in Hv.
Qed.

Lemma Phase1_step (l : list CastVote.t) (n : nat) (v : CastVote.t) st :
  length l < n → Phase1 g env settings fi l n st →
  Phase1 g env settings fi (l ++ [v]) n (castStep g env settings fi (length l) v st).1.
Proof.
  intros Hn (Hlen & Hzero & Hmap & Hrep). destruct st as [cbr D]. simpl in *.
  assert (Hk : cbr !! length l = Some CastVoteReply.zero) by (apply Hzero; lia).
  assert (Hold : ∀ k v', (l ++ [v]) !! k = Some v' →
            l !! k = Some v' ∧ k < length l ∨ k = length l ∧ v' = v).
  { intros k v' Hl. destruct (decide (k < length l)) as [Hlt|Hge].
    - left. by rewrite lookup_app_l in Hl.
    - right. rewrite lookup_app_r in Hl by lia.
      destruct (k - length l) as [|d] eqn:Hd; simpl in Hl; [|done].
      injection Hl as <-. split; [lia | done]. }
  unfold castStep. destruct (D !! voteKey v) as [dv0|] eqn:HD.
  - (* duplicate *)
    unfold Phase1. cbn [fst snd]. split; [by rewrite length_alter|]. split; [|split].
    + intros k Hk1 Hk2. rewrite length_app in Hk1. simpl in Hk1.
      rewrite list_lookup_alter_ne by lia. apply Hzero; lia.
    + intros key dv Hdv. destruct (Hmap key dv Hdv) as (Hv & ? & ?).
      split; [|done]. by apply lookup_app_l_Some.
    + intros k v' Hl. destruct (Hold k v' Hl) as [[Hl' Hlt] | [-> ->]].
      * rewrite list_lookup_alter_ne by lia. by apply Hrep.
      * left. exists dv0. split; [done|]. split.
        -- destruct (Hmap _ _ HD) as (Hv & _). by apply lookup_lt_Some in Hv.
        -- rewrite list_lookup_alter_eq, Hk. done.
  - fold (validated g env settings v).
    destruct (validateVote g env settings _ _ _ _) as [err evs] eqn:Hval.
    assert (Herr : validated g env settings v = err)
      by (unfold validated; by rewrite Hval).
    destruct err as [e|]; unfold Phase1; cbn [fst snd].
    + (* invalid signature *)
      split; [by rewrite !length_alter|]. split; [|split].
      * intros k Hk1 Hk2. rewrite length_app in Hk1. simpl in Hk1.
        rewrite !list_lookup_alter_ne by lia. apply Hzero; lia.
      * intros key dv Hdv. destruct (Hmap key dv Hdv) as (Hv & ? & ?).
        split; [|done]. by apply lookup_app_l_Some.
      * intros k v' Hl. destruct (Hold k v' Hl) as [[Hl' Hlt] | [-> ->]].
        -- rewrite !list_lookup_alter_ne by lia. by apply Hrep.
        -- right. left. exists e. split; [done|]. split.
           ++ rewrite !list_lookup_alter_eq, Hk. done.
           ++ intros dv Hdv. congruence.
    + (* signed *)
      split; [by rewrite !length_alter|]. split; [|split].
      * intros k Hk1 Hk2. rewrite length_app in Hk1. simpl in Hk1.
        rewrite !list_lookup_alter_ne by lia. apply Hzero; lia.
      * intros key dv Hdv. destruct (decide (voteKey v = key)) as [<-|Hne].
        -- rewrite lookup_insert_eq in Hdv. injection Hdv as <-. simpl.
           split; [|done]. rewrite lookup_app_r by lia.
           by rewrite Nat.sub_diag.
        -- rewrite lookup_insert_ne in Hdv by done.
           destruct (Hmap key dv Hdv) as (Hv & ? & ?).
           split; [|done]. by apply lookup_app_l_Some.
      * intros k v' Hl. destruct (Hold k v' Hl) as [[Hl' Hlt] | [-> ->]].
        -- rewrite !list_lookup_alter_ne by lia.
           destruct (Hrep k v' Hl') as [(dv & Hdv & Hi & Hr) | [(e & He & Hr & Hi) | (Hv & Hdv & Hr)]].
           ++ left. exists dv. split; [|done].
              rewrite lookup_insert_ne; [done | congruence].
           ++ right. left. exists e. split; [done|]. split; [done|].
              intros dv Hdv. destruct (decide (voteKey v = voteKey v')) as [Heq|Hne].
              ** rewrite Heq, lookup_insert_eq in Hdv. by injection Hdv as <-.
              ** rewrite lookup_insert_ne in Hdv by done. by apply Hi.
           ++ right. right. split; [done|]. split; [|done].
              rewrite lookup_insert_ne; [done | congruence].
        -- right. right. split; [done|]. split; [by rewrite lookup_insert_eq|].
           rewrite !list_lookup_alter_eq, Hk. done.
Qed.

Lemma Phase1_castLoop (n : nat) (l : list CastVote.t) :
  (length l ≤ n)%nat →
  Phase1 g env settings fi l n (castLoop g env settings fi 0 l (replicate n CastVoteReply.zero, ∅)).1.
Proof.
  induction l as [|v l IH] using rev_ind; intros Hn.
  - apply Phase1_init.
  - rewrite length_app in Hn. simpl in Hn. rewrite castLoop_snoc.
    apply Phase1_step; [lia|]. apply IH. lia.
Qed.

Lemma Phase1_verified (votes : list CastVote.t) :
  Phase1 g env settings fi votes (length votes) (verified g env settings fi votes).
Proof. by apply Phase1_castLoop. Qed.

End VerifyLoop.

(** ** pluginCastVotes: the replay of a votes file *)

Lemma storedVotes_app (a b : list LedgerItem) :
  storedVotes (a ++ b) = storedVotes a ++ storedVotes b.
Proof. unfold storedVotes. apply omap_app. Qed.

Lemma ledgerKeys_app (a b : list LedgerItem) :
  ledgerKeys (a ++ b) = ledgerKeys a ++ ledgerKeys b.
Proof. unfold ledgerKeys. by rewrite storedVotes_app, fmap_app. Qed.

Lemma ledgerKeys_stored (items : list LedgerItem) (cv : CastVote.t) :
  cv ∈ storedVotes items → voteKey cv ∈ ledgerKeys items.
Proof. intros Hin. unfold ledgerKeys. by apply list_elem_of_fmap_2. Qed.

Lemma ledgerCount_app (a b : list LedgerItem) (T K : string) :
  ledgerCount (a ++ b) T K = ledgerCount a T K + ledgerCount b T K.
Proof. unfold ledgerCount. by rewrite storedVotes_app, filter_app, length_app. Qed.

Lemma ledgerCount_absent (items : list LedgerItem) (T K : string) :
  T +:+ K ∉ ledgerKeys items → ledgerCount items T K = 0.
Proof.
  intros Hnot. unfold ledgerCount.
  destruct (filter _ (storedVotes items)) as [|cv rest] eqn:Hf; [done|].
  exfalso. apply Hnot.
  assert (Hin : cv ∈ filter (λ cv, CastVote.Token cv = T ∧ CastVote.Ticket cv = K)
                       (storedVotes items)) by (rewrite Hf; left).
  apply list_elem_of_filter in Hin as [[<- <-] Hin].
  by apply ledgerKeys_stored in Hin.
Qed.

Lemma decodeFile_spec (items : list LedgerItem) : ∀ cvs w,
  (Forall isStored items ∧
   decodeFile items cvs w = (Done (cvs ++ storedVotes items), w)) ∨
  (¬ Forall isStored items ∧ ∃ msg, decodeFile items cvs w = (Panicked msg, w)).
Proof.
  induction items as [|[cv|err] items IH]; intros cvs w; simpl.
  - left. split; [constructor|]. by rewrite app_nil_r.
  - destruct (IH (cvs ++ [cv]) w) as [[Hall Hrun] | [Hnot Hrun]].
    + left. split; [by constructor|]. rewrite Hrun. by rewrite <- (assoc_L (++)).
    + right. split; [|done]. intros Hall. apply Hnot. by inversion Hall.
  - right. split; [|by eexists]. intros Hall. by inversion Hall.
Qed.

Lemma recreateKeys_spec (cvs : list CastVote.t) : ∀ (content : gset string) w,
  (NoDup (voteKey <$> cvs) ∧ (∀ k, k ∈ voteKey <$> cvs → k ∉ content) ∧
   recreateKeys cvs content w
     = (Done (list_to_set (voteKey <$> cvs) ∪ content), w)) ∨
  (¬ (NoDup (voteKey <$> cvs) ∧ ∀ k, k ∈ voteKey <$> cvs → k ∉ content) ∧
   recreateKeys cvs content w = (Panicked "yy", w)).
Proof.
  induction cvs as [|vv cvs IH]; intros content w; simpl.
  - left. split; [constructor|]. split; [by intros k ?%elem_of_nil|].
    unfold mret, M_ret. f_equal. f_equal. set_solver.
  - destruct (decide (voteKey vv ∈ content)) as [Hin|Hnin].
    + right. split; [|done]. intros [_ Hfresh]. apply (Hfresh (voteKey vv)); [left | done].
    + destruct (IH ({[voteKey vv]} ∪ content) w) as [(Hnd & Hfresh & Hrun) | [Hnot Hrun]].
      * left. split; [|split].
        -- constructor; [|done]. intros Hin. apply (Hfresh _ Hin). set_solver.
        -- intros k [->|Hin]%elem_of_cons; [done|].
           specialize (Hfresh k Hin). set_solver.
        -- rewrite Hrun. f_equal. f_equal. set_solver.
      * right. split; [|done]. intros [Hnd Hfresh]. apply Hnot.
        inversion Hnd as [|? ? Hhd Htl]; subst. split; [done|].
        intros k Hin. apply not_elem_of_union. split.
        -- apply not_elem_of_singleton. intros ->. done.
        -- apply Hfresh. by right.
Qed.

Lemma openCreate_spec (path : string) (w : World) :
  openCreate path w = (Done (default [] (disk w !! path)), created path w).
Proof.
  unfold openCreate, created. destruct (disk w !! path) as [items|] eqn:Hp; simpl.
  - f_equal. destruct w as [s d t]. simpl in *. f_equal. by rewrite insert_id.
  - done.
Qed.

Lemma created_lookup (path p : string) (w : World) (items : list LedgerItem) :
  disk w !! p = Some items → disk (created path w) !! p = Some items.
Proof.
  intros Hp. unfold created. simpl. destruct (decide (path = p)) as [->|Hne].
  - by rewrite lookup_insert_eq, Hp.
  - by rewrite lookup_insert_ne.
Qed.

Lemma created_existing (path : string) (w : World) (items : list LedgerItem) :
  disk w !! path = Some items → disk (created path w) = disk w.
Proof. intros Hp. unfold created. simpl. rewrite Hp. simpl. by apply insert_id. Qed.

Lemma ledgerCount_nil (T K : string) : ledgerCount [] T K = 0.
Proof. done. Qed.

Lemma grows_refl (w : World) : grows w w.
Proof.
  split; [done|]. split; [|done]. intros p items Hp. exists []. by rewrite app_nil_r.
Qed.

Lemma grows_trans (w1 w2 w3 : World) : grows w1 w2 → grows w2 w3 → grows w1 w3.
Proof.
  intros (Hs1 & Hm1 & Hn1) (Hs2 & Hm2 & Hn2). split; [congruence|]. split; [|auto].
  intros p items Hp. destruct (Hm1 p items Hp) as [more1 H1].
  destruct (Hm2 p _ H1) as [more2 H2]. exists (more1 ++ more2).
  by rewrite (assoc_L (++)).
Qed.

Lemma grows_logged (evs : list Event) (w : World) : grows w (logged evs w).
Proof.
  split; [done|]. split; [|done]. intros p items Hp. exists []. by rewrite app_nil_r.
Qed.

Lemma grows_created (path : string) (w : World) : grows w (created path w).
Proof.
  split; [done|]. split.
  - intros p items Hp. exists []. rewrite app_nil_r. by apply created_lookup.
  - intros Hno p items T K Hp. unfold created in Hp. simpl in Hp.
    destruct (decide (path = p)) as [->|Hne].
    + rewrite lookup_insert_eq in Hp. injection Hp as <-.
      destruct (disk w !! p) as [items|] eqn:Hw; simpl; [by eapply Hno|].
      rewrite ledgerCount_nil. lia.
    + rewrite lookup_insert_ne in Hp by done. by eapply Hno.
Qed.

Section Replay.
Context `{Primitives}.
Variables (g : gitBackEnd) (env : Env).

Lemma openVotes_spec (token : string) (w : World) :
  let path := votesPath g token in
  let items := default [] (disk w !! path) in
  let w1 := created path (logged [EvOpenFile path] w) in
  match osOpenFile env path with
  | Some err =>
    openVotes g env token w = (Panicked ("x " +:+ err), logged [EvOpenFile path] w)
  | None =>
    (wellFormed items ∧
     openVotes g env token w
       = (Done {| fileHandle := path; content := list_to_set (ledgerKeys items) |}, w1)) ∨
    (¬ wellFormed items ∧ ∃ msg, openVotes g env token w = (Panicked msg, w1))
  end.
Proof.
  intros path items w1. unfold openVotes. fold path. unfoldM. cbn [fst snd].
  destruct (osOpenFile env path) as [err|]; [done|].
  rewrite openCreate_spec. cbn [logged disk]. fold items. fold w1.
  destruct (decodeFile_spec items [] w1) as [[Hall Hrun] | [Hnot [msg Hrun]]];
    rewrite Hrun; [|right; split; [intros Hwf; apply Hnot, Hwf | by eexists]].
  rewrite app_nil_l.
  destruct (recreateKeys_spec (storedVotes items) ∅ w1) as [(Hnd & _ & Hrun') | [Hnot Hrun']];
    rewrite Hrun'.
  - left. split; [done|]. by rewrite (right_id_L ∅ (∪)).
  - right. split; [|by eexists]. intros Hwf. apply Hnot. split; [apply Hwf|].
    intros k _. set_solver.
Qed.

End Replay.

(** ** pluginCastVotes: the loop that checks the ledger and appends *)

Lemma forEach_nil {A S} (body : A → S → M S) (s : S) (w : World) :
  forEach body [] s w = (Done s, w).
Proof. done. Qed.

Lemma forEach_cons {A S} (body : A → S → M S) (a : A) (l : list A) (s : S) (w : World) :
  forEach body (a :: l) s w =
  match body a s w with
  | (Done s', w') => forEach body l s' w'
  | (Panicked msg, w') => (Panicked msg, w')
  end.
Proof. done. Qed.

Lemma grows_appended (path : string) (v : CastVote.t) (w : World)
    (items : list LedgerItem) :
  disk w !! path = Some items → voteKey v ∉ ledgerKeys items →
  grows w (appended path v w).
Proof.
  intros Hp Hfresh. unfold appended, appendRecord. cbn [snd].
  split; [done|]. split; cbn [disk].
  - intros p its Hits. destruct (decide (path = p)) as [->|Hne].
    + rewrite lookup_insert_eq, Hits. simpl. by eexists.
    + rewrite lookup_insert_ne by done. exists []. by rewrite app_nil_r.
  - intros Hno p its T K Hits. cbn [disk] in Hits.
    destruct (decide (path = p)) as [->|Hne].
    + rewrite lookup_insert_eq, Hp in Hits. simpl in Hits. injection Hits as <-.
      rewrite ledgerCount_app. unfold ledgerCount at 2. simpl.
      rewrite filter_cons, filter_nil.
      destruct (decide (CastVote.Token v = T ∧ CastVote.Ticket v = K)) as [[<- <-]|Hne];
        simpl.
      * rewrite (ledgerCount_absent items) by done. lia.
      * specialize (Hno p items T K Hp). lia.
    + rewrite lookup_insert_ne in Hits by done. by eapply Hno.
Qed.

Section StoreLoop.
Context `{Primitives}.
Variables (g : gitBackEnd) (env : Env) (D : gmap string dedupVote).

Lemma HandleOK_weaken (P P' : gset string) w tok f :
  P ⊆ P' → HandleOK g env P w tok f → HandleOK g env P' w tok f.
Proof.
  intros Hsub (Hpath & Hopen & items & Hitems & Hwf & Hin & Hout).
  split; [done|]. split; [done|]. exists items. repeat split; try done; try apply Hwf.
  intros key Hkey. destruct (Hout key Hkey); [by left | right; set_solver].
Qed.

Lemma HandleOK_same_disk (P : gset string) w w' tok f :
  (∀ p items, disk w !! p = Some items → disk w' !! p = Some items) →
  HandleOK g env P w tok f → HandleOK g env P w' tok f.
Proof.
  intros Hsame (Hpath & Hopen & items & Hitems & Hrest).
  split; [done|]. split; [done|]. exists items. split; [by apply Hsame | done].
Qed.

Lemma HandleOK_appended (P : gset string) w tok f path v items :
  disk w !! path = Some items → voteKey v ∉ ledgerKeys items →
  HandleOK g env P w tok f →
  HandleOK g env ({[voteKey v]} ∪ P) (appended path v w) tok f.
Proof.
  intros Hp Hfresh (Hpath & Hopen & items' & Hitems & [Hall Hnd] & Hin & Hout).
  split; [done|]. split; [done|].
  unfold appended, appendRecord. cbn [snd disk].
  destruct (decide (path = fileHandle f)) as [Heq|Hne].
  - rewrite <- Heq in *. rewrite Hp in Hitems. injection Hitems as <-.
    exists (items ++ [Stored v]). rewrite lookup_insert_eq, Hp. simpl.
    split; [done|]. split; [split|split].
    + apply Forall_app. split; [done|]. by repeat constructor.
    + rewrite ledgerKeys_app. apply NoDup_app. split; [done|]. split.
      * intros k Hk [->|[]%elem_of_nil]%elem_of_cons. done.
      * apply NoDup_singleton.
    + intros key Hkey. rewrite ledgerKeys_app. apply elem_of_app. left. by apply Hin.
    + intros key Hkey. rewrite ledgerKeys_app in Hkey.
      apply elem_of_app in Hkey as [Hkey | [->|[]%elem_of_nil]%elem_of_cons].
      * destruct (Hout key Hkey); [by left | right; set_solver].
      * right. set_solver.
  - exists items'. rewrite lookup_insert_ne by done. split; [done|].
    split; [done|]. split; [done|].
    intros key Hkey. destruct (Hout key Hkey); [by left | right; set_solver].
Qed.

(** One turn of the loop, from a state that satisfies the invariant. *)
Lemma storeVote_step (P : gset string) (dv : dedupVote) files cbr w o w' :
  StoreInv g env P files w → voteKey (vote dv) ∉ P →
  storeVote g env D dv (files, cbr) w = (o, w') →
  grows w w' ∧
  match o with
  | Done (files', cbr') =>
    StoreInv g env ({[voteKey (vote dv)]} ∪ P) files' w' ∧
    (∀ tok f, files !! tok = Some f → files' !! tok = Some f) ∧
    is_Some (files' !! CastVote.Token (vote dv)) ∧
    inLedger g w' (vote dv) ∧
    (cbr' = cbr ∨
     cbr' = alter (CastVoteReply.setError alreadyVoted) (hitIndex D dv) cbr)
  | Panicked _ => True
  end.
Proof.
  intros Hinv Hfresh. unfold storeVote.
  set (tok := CastVote.Token (vote dv)). set (key := voteKey (vote dv)) in *.
  (* the lazy open *)
  assert (Hopen : ∀ f files1 w1,
    StoreInv g env P files1 w1 → grows w w1 →
    (∀ t f', files !! t = Some f' → files1 !! t = Some f') →
    files1 !! tok = Some f →
    (let '(f, files) := (f, files1) in
     if decide (key ∈ content f)
     then mret (files, alter (CastVoteReply.setError alreadyVoted)
                         (default 0 (index <$> D !! key)) cbr)
     else match fileSeek env (fileHandle f) with
          | Some err => panic ("y " +:+ err)
          | None =>
            match fileEncode env (fileHandle f) (vote dv) with
            | Some err => panic ("z " +:+ err)
            | None => appendRecord (fileHandle f) (vote dv);; mret (files, cbr)
            end
          end) w1 = (o, w') →
    grows w w' ∧
    match o with
    | Done (files', cbr') =>
      StoreInv g env ({[key]} ∪ P) files' w' ∧
      (∀ t f', files !! t = Some f' → files' !! t = Some f') ∧
      is_Some (files' !! tok) ∧ inLedger g w' (vote dv) ∧
      (cbr' = cbr ∨
       cbr' = alter (CastVoteReply.setError alreadyVoted) (hitIndex D dv) cbr)
    | Panicked _ => True
    end).
  { intros f files1 w1 Hinv1 Hgrow Hsub Hf.
    destruct (Hinv1 tok f Hf) as (Hpath & Hos & items & Hitems & Hwf & Hin & Hout).
    destruct (decide (key ∈ content f)) as [Hhit|Hmiss].
    - intros [= <- <-]. split; [done|]. split; [|split; [done|split; [eauto|split]]].
      + intros t f' Ht. eapply HandleOK_weaken; [|by apply Hinv1]. set_solver.
      + unfold inLedger. fold tok. exists items. rewrite <- Hpath.
        split; [done|]. by apply Hin.
      + by right.
    - destruct (fileSeek env (fileHandle f)) as [err|]; [by intros [= <- <-]|].
      destruct (fileEncode env (fileHandle f) (vote dv)) as [err|]; [by intros [= <- <-]|].
      unfoldM. intros [= <- <-].
      assert (Hnew : key ∉ ledgerKeys items).
      { intros Hk. destruct (Hout key Hk); done. }
      change (appendRecord (fileHandle f) (vote dv) w1).2
        with (appended (fileHandle f) (vote dv) w1).
      split; [eapply grows_trans; [done|]; by eapply grows_appended|].
      split; [|split; [done|split; [eauto|split]]].
      + intros t f' Ht. eapply HandleOK_appended; eauto.
      + unfold inLedger. fold tok. exists (items ++ [Stored (vote dv)]). rewrite <- Hpath.
        unfold appended, appendRecord. cbn [snd disk].
        rewrite lookup_insert_eq, Hitems. split; [done|].
        rewrite ledgerKeys_app. apply elem_of_app. right. left.
      + by left. }
  destruct (files !! tok) as [f|] eqn:Hf.
  - unfoldM. intros Hrun. eapply (Hopen f files w); eauto using grows_refl.
  - pose proof (openVotes_spec g env tok w) as Hspec. cbn zeta in Hspec.
    unfold mbind, M_bind at 1.
    unfold mbind, M_bind at 1.
    destruct (osOpenFile env (votesPath g tok)) as [err|] eqn:Hos.
    + rewrite Hspec. intros [= <- <-]. split; [apply grows_logged | done].
    + destruct Hspec as [[Hwf Hrun] | [Hnot [msg Hrun]]]; rewrite Hrun.
      * unfold mret, M_ret at 1.
        set (w1 := created (votesPath g tok) (logged [EvOpenFile (votesPath g tok)] w)).
        set (f := {| fileHandle := votesPath g tok; content := _ |}).
        assert (Hg1 : grows w w1).
        { eapply grows_trans; [apply grows_logged | apply grows_created]. }
        intros Hrun'. eapply (Hopen f (<[tok := f]> files) w1); eauto.
        -- intros t f' Ht. destruct (decide (tok = t)) as [<-|Hne].
           ++ rewrite lookup_insert_eq in Ht. injection Ht as <-.
              split; [done|]. split; [done|].
              exists (default [] (disk w !! votesPath g tok)).
              split; [|split; [done|split]].
              ** subst w1. unfold created. cbn [disk logged].
                 by rewrite lookup_insert_eq.
              ** intros k Hk. subst f. cbn [content] in Hk. set_solver.
              ** intros k Hk. left. subst f. cbn [content]. set_solver.
           ++ rewrite lookup_insert_ne in Ht by done.
              eapply HandleOK_same_disk; [|by apply Hinv].
              intros p items Hp. subst w1. by apply created_lookup.
        -- intros t f' Ht. rewrite lookup_insert_ne; [done|]. congruence.
        -- by rewrite lookup_insert_eq.
      * intros [= <- <-]. split; [|done].
        eapply grows_trans; [apply grows_logged | apply grows_created].
Qed.

Lemma inLedger_grows (w w' : World) (v : CastVote.t) :
  grows w w' → inLedger g w v → inLedger g w' v.
Proof.
  intros (_ & Hmono & _) (items & Hitems & Hkey).
  destruct (Hmono _ _ Hitems) as [more Hmore]. exists (items ++ more).
  split; [done|]. rewrite ledgerKeys_app. apply elem_of_app. by left.
Qed.

Lemma setError_idemp (e : string) (o : option CastVoteReply.t) :
  CastVoteReply.setError e <$> (CastVoteReply.setError e <$> o)
  = CastVoteReply.setError e <$> o.
Proof. by destruct o. Qed.

Lemma storeLoop_spec (L : list (string * dedupVote)) :
  ∀ (P : gset string) files cbr w o w',
  NoDup (keysOf L) → (∀ k, k ∈ keysOf L → k ∉ P) → StoreInv g env P files w →
  forEach (λ kv, storeVote g env D kv.2) L (files, cbr) w = (o, w') →
  grows w w' ∧
  match o with
  | Done (files', cbr') =>
    StoreInv g env (list_to_set (keysOf L) ∪ P) files' w' ∧
    (∀ tok f, files !! tok = Some f → files' !! tok = Some f) ∧
    (∀ kv, kv ∈ L →
       is_Some (files' !! CastVote.Token (vote kv.2)) ∧ inLedger g w' (vote kv.2)) ∧
    length cbr' = length cbr ∧
    (∀ i, cbr' !! i = cbr !! i ∨
          ∃ kv, kv ∈ L ∧ hitIndex D kv.2 = i ∧
                cbr' !! i = CastVoteReply.setError alreadyVoted <$> cbr !! i)
  | Panicked _ => True
  end.
Proof.
  induction L as [|kv L IH]; intros P files cbr w o w' Hnd Hfresh Hinv.
  - rewrite forEach_nil. intros [= <- <-]. split; [apply grows_refl|].
    split; [|split; [done|split; [by intros kv ?%elem_of_nil|split; [done|by left]]]].
    intros tok f Hf. eapply HandleOK_weaken; [|by apply Hinv]. set_solver.
  - rewrite forEach_cons.
    destruct (storeVote g env D kv.2 (files, cbr) w) as [[[files1 cbr1]|msg] w1] eqn:Hstep;
      [|intros [= <- <-]].
    + unfold keysOf in Hnd, Hfresh. rewrite fmap_cons in Hnd, Hfresh.
      apply NoDup_cons in Hnd as [Hhd Hnd].
      assert (Hfr : voteKey (vote kv.2) ∉ P) by (apply Hfresh; left).
      pose proof (storeVote_step P kv.2 files cbr w _ _ Hinv Hfr Hstep) as [Hg1 Hpost1].
      destruct Hpost1 as (Hinv1 & Hsub1 & Hsome1 & Hled1 & Hcbr1).
      intros Hrest.
      assert (Hfr' : ∀ k, k ∈ keysOf L → k ∉ {[voteKey (vote kv.2)]} ∪ P).
      { intros k Hk. apply not_elem_of_union. split.
        - apply not_elem_of_singleton. intros ->. done.
        - apply Hfresh. by right. }
      pose proof (IH _ files1 cbr1 w1 o w' Hnd Hfr' Hinv1 Hrest) as [Hg2 Hpost].
      split; [by eapply grows_trans|].
      destruct o as [[files' cbr']|msg]; [|done].
      destruct Hpost as (Hinv2 & Hsub2 & Hall2 & Hlen2 & Hcbr2).
      split; [|split; [auto|split; [|split]]].
      * intros tok f Hf. eapply HandleOK_weaken; [|by apply Hinv2].
        unfold keysOf. rewrite fmap_cons. set_solver.
      * intros kv' [->|Hin]%elem_of_cons; [|by apply Hall2].
        split; [destruct Hsome1 as [f Hf]; exists f; by apply Hsub2|].
        by eapply inLedger_grows.
      * rewrite Hlen2. destruct Hcbr1 as [->| ->]; [done | by rewrite length_alter].
      * intros i. destruct (Hcbr2 i) as [Hsame | (kv' & Hin & Hidx & Hset)].
        -- rewrite Hsame. destruct Hcbr1 as [->| ->]; [by left|].
           destruct (decide (hitIndex D kv.2 = i)) as [<-|Hne].
           ++ right. exists kv. split; [left|]. split; [done|].
              by rewrite list_lookup_alter_eq.
           ++ left. by rewrite list_lookup_alter_ne.
        -- right. destruct Hcbr1 as [->| ->].
           ++ exists kv'. split; [by right | done].
           ++ destruct (decide (hitIndex D kv.2 = i)) as [<-|Hne].
              ** exists kv. split; [left|]. split; [done|].
                 by rewrite Hset, list_lookup_alter_eq, setError_idemp.
              ** exists kv'. split; [by right|]. split; [done|].
                 by rewrite Hset, list_lookup_alter_ne.
    + assert (Hfr : voteKey (vote kv.2) ∉ P).
      { unfold keysOf in Hfresh. rewrite fmap_cons in Hfresh. apply Hfresh. left. }
      by pose proof (storeVote_step P kv.2 files cbr w _ _ Hinv Hfr Hstep) as [Hg1 _].
Qed.

(** The walk over a batch whose votes are all recorded already: every
    vote is a hit and nothing is written. *)
Lemma storeLoop_replay (d : gmap string (list LedgerItem))
    (L : list (string * dedupVote)) : ∀ files cbr w,
  disk w = d →
  (∀ kv, kv ∈ L → recorded g env d (vote kv.2)) →
  (∀ tok f, files !! tok = Some f →
     fileHandle f = votesPath g tok ∧
     ∃ items, d !! fileHandle f = Some items ∧
              content f = list_to_set (ledgerKeys items)) →
  ∃ files' w',
    forEach (λ kv, storeVote g env D kv.2) L (files, cbr) w
    = (Done (files', foldl (markHit D) cbr L), w') ∧
    disk w' = d ∧ decredPluginSettings w' = decredPluginSettings w.
Proof.
  induction L as [|kv L IH]; intros files cbr w Hd Hrec Hfiles.
  - by exists files, w.
  - destruct (Hrec kv) as (Hos & items & Hitems & Hwf & Hkey); [left|].
    set (tok := CastVote.Token (vote kv.2)) in *.
    assert (Hstep : ∃ files1 w1,
      storeVote g env D kv.2 (files, cbr) w
      = (Done (files1, alter (CastVoteReply.setError alreadyVoted)
                             (hitIndex D kv.2) cbr), w1) ∧
      disk w1 = d ∧ decredPluginSettings w1 = decredPluginSettings w ∧
      (∀ tok f, files1 !! tok = Some f →
         fileHandle f = votesPath g tok ∧
         ∃ items, d !! fileHandle f = Some items ∧
                  content f = list_to_set (ledgerKeys items))).
    { unfold storeVote. fold tok. destruct (files !! tok) as [f|] eqn:Hf.
      - destruct (Hfiles tok f Hf) as (Hpath & items' & Hitems' & Hcontent).
        rewrite Hpath, Hitems in Hitems'. injection Hitems' as <-.
        unfoldM. rewrite decide_True by (rewrite Hcontent; set_solver).
        by exists files, w.
      - pose proof (openVotes_spec g env tok w) as Hspec. cbn zeta in Hspec.
        rewrite Hos in Hspec. rewrite Hd, Hitems in Hspec. simpl in Hspec.
        destruct Hspec as [[_ Hrun] | [Hnot _]]; [|done].
        unfold mbind, M_bind at 1. unfold mbind, M_bind at 1. rewrite Hrun.
        unfoldM. cbn [content]. rewrite decide_True by set_solver.
        eexists _, _. split; [reflexivity|].
        assert (Hsame : disk (created (votesPath g tok)
                                (logged [EvOpenFile (votesPath g tok)] w)) = d).
        { rewrite (created_existing _ _ items); [done|]. cbn. by rewrite Hd. }
        split; [done|]. split; [done|].
        intros t f' Ht. destruct (decide (tok = t)) as [<-|Hne].
        + rewrite lookup_insert_eq in Ht. injection Ht as <-. simpl.
          split; [done|]. by exists items.
        + rewrite lookup_insert_ne in Ht by done. by apply Hfiles. }
    destruct Hstep as (files1 & w1 & Hrun & Hd1 & Hs1 & Hfiles1).
    rewrite forEach_cons, Hrun. cbn [foldl].
    destruct (IH files1 (alter (CastVoteReply.setError alreadyVoted)
                               (hitIndex D kv.2) cbr) w1) as (files' & w' & Hrun' & Hd' & Hs');
      [done | | done |].
    { intros kv' Hin. apply Hrec. by right. }
    exists files', w'. split; [done|]. split; [done | congruence].
Qed.

End StoreLoop.

(** ** pluginCastVotes: the whole command *)

Lemma rangeMap_elem {V} (rank : string → nat) (m : gmap string V) (kv : string * V) :
  kv ∈ rangeMap rank m ↔ m !! kv.1 = Some kv.2.
Proof.
  unfold rangeMap. rewrite merge_sort_Permutation. destruct kv as [k v].
  apply elem_of_map_to_list.
Qed.

Lemma rangeMap_NoDup {V} (rank : string → nat) (m : gmap string V) :
  NoDup (rangeMap rank m).*1.
Proof.
  unfold rangeMap. rewrite merge_sort_Permutation. apply NoDup_fst_map_to_list.
Qed.

Lemma logged_logged (evs1 evs2 : list Event) (w : World) :
  logged evs2 (logged evs1 w) = logged (evs1 ++ evs2) w.
Proof. unfold logged. simpl. by rewrite (assoc_L (++)). Qed.

Lemma logged_nil (w : World) : logged [] w = w.
Proof. destruct w. unfold logged. simpl. by rewrite app_nil_r. Qed.

Lemma forEach_closeFile (L : list (string * file)) : ∀ w,
  forEach closeFile L () w
  = (Done (), logged ((λ kv, EvClose (fileHandle kv.2)) <$> L) w).
Proof.
  induction L as [|kv L IH]; intros w.
  - by rewrite forEach_nil, logged_nil.
  - rewrite forEach_cons. unfold closeFile at 1, emit. rewrite IH.
    by rewrite logged_logged.
Qed.

Section CastVotes.
Context `{Primitives}.
Variables (g : gitBackEnd) (env : Env).

Lemma castVoteReplies_run (payload : string) (w : World)
    (votes : list CastVote.t) (fiJSON : string) (fi : FullIdentity) :
  DecodeCastVotes (bytesOf payload) = Ok votes →
  decredPluginSettings w !! decredPluginIdentity = Some fiJSON →
  UnmarshalFullIdentity (bytesOf fiJSON) = Ok fi →
  lockLock env = None →
  shutdown g = false →
  gitCheckout env (unvetted g) "master" = None →
  gitPull env (unvetted g) true = None →
  let run := castLoop g env (decredPluginSettings w) fi 0 votes
               (replicate (length votes) CastVoteReply.zero, ∅) in
  castVoteReplies g env payload w =
  match forEach (λ kv, storeVote g env run.1.2 kv.2)
                (rangeMap (rangeDedupVotes env) run.1.2) (∅, run.1.1)
                (lockedWorld g run.2 w) with
  | (Done (files, cbr), w2) =>
    (Done (Ok cbr), logged [EvUnlock] (logged (closes env files) w2))
  | (Panicked msg, w2) => (Panicked msg, logged [EvUnlock] w2)
  end.
Proof.
  intros Hdec Hid Hfi Hlock Hshut Hco Hpull run.
  unfold castVoteReplies. rewrite Hdec. unfold getSettings.
  unfold mbind, M_bind at 1. rewrite Hid, Hfi.
  unfold query. fold run. destruct run as [[cbr1 D] evs]. cbn [fst snd].
  unfoldM. rewrite Hlock. unfold defer. rewrite Hshut, Hco, Hpull.
  unfold lockedWorld.
  destruct (forEach _ _ _ _) as [[[files cbr]|msg] w2]; [|done].
  by rewrite forEach_closeFile.
Qed.

Lemma grows_same (w w' : World) :
  decredPluginSettings w' = decredPluginSettings w → disk w' = disk w → grows w w'.
Proof.
  intros Hs Hd. split; [done|]. split.
  - intros p items Hp. exists []. by rewrite app_nil_r, Hd.
  - intros Hno p items T K Hp. rewrite Hd in Hp. by eapply Hno.
Qed.

Lemma keysOf_range (D : gmap string dedupVote) (rank : string → nat) :
  (∀ key dv, D !! key = Some dv → voteKey (vote dv) = key) →
  keysOf (rangeMap rank D) = (rangeMap rank D).*1.
Proof.
  intros Hkey. unfold keysOf. apply list_fmap_ext. intros i kv Hi.
  apply (Hkey kv.1 kv.2). apply (rangeMap_elem rank). by eapply list_elem_of_lookup_2.
Qed.

Lemma hitIndex_entry (D : gmap string dedupVote) (key : string) (dv : dedupVote) :
  D !! key = Some dv → voteKey (vote dv) = key → hitIndex D dv = index dv.
Proof. intros HD Hkey. unfold hitIndex. by rewrite Hkey, HD. Qed.

(** Whatever the outcome of the command, files only grew and no double
    vote appeared. *)
Lemma castVoteReplies_grows (payload : string) (w : World) :
  grows w (castVoteReplies g env payload w).2.
Proof.
  destruct (DecodeCastVotes (bytesOf payload)) as [votes|e] eqn:Hdec;
    [|unfold castVoteReplies; rewrite Hdec; apply grows_refl].
  destruct (decredPluginSettings w !! decredPluginIdentity) as [fiJSON|] eqn:Hid;
    [|unfold castVoteReplies, getSettings; rewrite Hdec;
      unfold mbind, M_bind at 1; rewrite Hid; apply grows_refl].
  destruct (UnmarshalFullIdentity (bytesOf fiJSON)) as [fi|e] eqn:Hfi;
    [|unfold castVoteReplies, getSettings; rewrite Hdec;
      unfold mbind, M_bind at 1; rewrite Hid, Hfi; apply grows_refl].
  assert (Hearly : ∀ b,
    (lockLock env = None → shutdown g = false →
     gitCheckout env (unvetted g) "master" = None →
     gitPull env (unvetted g) true = None → b = true) → b = false →
    grows w (castVoteReplies g env payload w).2).
  { intros b Hb Hfalse. unfold castVoteReplies, getSettings. rewrite Hdec.
    unfold mbind, M_bind at 1. rewrite Hid, Hfi. unfold query.
    destruct (castLoop _ _ _ _ _ _ _) as [[cbr1 D] evs]. cbn [fst snd].
    unfoldM. destruct (lockLock env); [by apply grows_same|].
    unfold defer. destruct (shutdown g); [by apply grows_same|].
    destruct (gitCheckout env _ _); [by apply grows_same|].
    destruct (gitPull env _ _); [by apply grows_same|].
    rewrite Hb in Hfalse; done. }
  destruct (lockLock env) eqn:Hlock; [by apply (Hearly false)|].
  destruct (shutdown g) eqn:Hshut; [by apply (Hearly false)|].
  destruct (gitCheckout env (unvetted g) "master") eqn:Hco; [by apply (Hearly false)|].
  destruct (gitPull env (unvetted g) true) eqn:Hpull; [by apply (Hearly false)|].
  clear Hearly.
  rewrite (castVoteReplies_run payload w votes fiJSON fi) by done.
  pose proof (Phase1_verified g env (decredPluginSettings w) fi votes) as (_ & _ & Hmap & _).
  unfold verified in Hmap.
  destruct (castLoop _ _ _ _ _ _ _) as [[cbr1 D] evs]. cbn [fst snd] in *.
  destruct (forEach _ _ _ _) as [o w2] eqn:Hloop.
  assert (Hkeys : ∀ key dv, D !! key = Some dv → voteKey (vote dv) = key).
  { intros key dv Hdv. by destruct (Hmap key dv Hdv) as (_ & ? & _). }
  apply (storeLoop_spec g env D _ ∅) in Hloop as [Hg _].
  - assert (Hg0 : grows w (lockedWorld g evs w)) by by apply grows_same.
    destruct o as [[files cbr]|msg]; cbn [snd];
      (eapply grows_trans; [exact Hg0|]; eapply grows_trans; [exact Hg|]);
      by apply grows_same.
  - rewrite keysOf_range by done. apply rangeMap_NoDup.
  - intros k _. set_solver.
  - intros tok f Hf. by rewrite lookup_empty in Hf.
Qed.

(** What a call that returns its replies has done. *)
Lemma castVoteReplies_Ok (payload : string) (w w' : World)
    (cbr : list CastVoteReply.t) :
  castVoteReplies g env payload w = (Done (Ok cbr), w') →
  ∃ votes fiJSON fi,
    DecodeCastVotes (bytesOf payload) = Ok votes ∧
    decredPluginSettings w !! decredPluginIdentity = Some fiJSON ∧
    UnmarshalFullIdentity (bytesOf fiJSON) = Ok fi ∧
    (lockLock env = None ∧ shutdown g = false ∧
     gitCheckout env (unvetted g) "master" = None ∧
     gitPull env (unvetted g) true = None) ∧
    let st := verified g env (decredPluginSettings w) fi votes in
    length cbr = length votes ∧
    (∀ i, cbr !! i = st.1 !! i ∨
          ∃ key dv, st.2 !! key = Some dv ∧ index dv = i ∧
                    cbr !! i = CastVoteReply.setError alreadyVoted <$> st.1 !! i) ∧
    (∀ key dv, st.2 !! key = Some dv → recorded g env (disk w') (vote dv)).
Proof.
  intros Hrun.
  destruct (DecodeCastVotes (bytesOf payload)) as [votes|e] eqn:Hdec;
    [|unfold castVoteReplies in Hrun; by rewrite Hdec in Hrun].
  destruct (decredPluginSettings w !! decredPluginIdentity) as [fiJSON|] eqn:Hid;
    [|unfold castVoteReplies, getSettings in Hrun; rewrite Hdec in Hrun;
      unfold mbind, M_bind at 1 in Hrun; by rewrite Hid in Hrun].
  destruct (UnmarshalFullIdentity (bytesOf fiJSON)) as [fi|e] eqn:Hfi;
    [|unfold castVoteReplies, getSettings in Hrun; rewrite Hdec in Hrun;
      unfold mbind, M_bind at 1 in Hrun; by rewrite Hid, Hfi in Hrun].
  assert (Hgates : lockLock env = None ∧ shutdown g = false ∧
                   gitCheckout env (unvetted g) "master" = None ∧
                   gitPull env (unvetted g) true = None).
  { revert Hrun. unfold castVoteReplies, getSettings. rewrite Hdec.
    unfold mbind, M_bind at 1. rewrite Hid, Hfi. unfold query.
    destruct (castLoop _ _ _ _ _ _ _) as [[cbr1 D] evs]. cbn [fst snd].
    unfoldM. destruct (lockLock env); [by intros [=]|].
    unfold defer. destruct (shutdown g); [by intros [=]|].
    destruct (gitCheckout env _ _); [by intros [=]|].
    destruct (gitPull env _ _); [by intros [=]|]. done. }
  exists votes, fiJSON, fi. do 4 (split; [done|]).
  destruct Hgates as (Hlock & Hshut & Hco & Hpull).
  rewrite (castVoteReplies_run payload w votes fiJSON fi) in Hrun by done.
  intros st.
  pose proof (Phase1_verified g env (decredPluginSettings w) fi votes)
    as (Hlen & _ & Hmap & _).
  fold st in Hlen, Hmap. unfold verified in st.
  destruct (castLoop _ _ _ _ _ _ _) as [[cbr1 D] evs]. cbn [fst snd] in *.
  subst st. cbn [fst snd] in *.
  destruct (forEach _ _ _ _) as [[[files cbr2]|msg] w2] eqn:Hloop; [|done].
  injection Hrun as -> <-.
  assert (Hkeys : ∀ key dv, D !! key = Some dv → voteKey (vote dv) = key).
  { intros key dv Hdv. by destruct (Hmap key dv Hdv) as (_ & ? & _). }
  apply (storeLoop_spec g env D _ ∅) in Hloop
    as (_ & Hinv & _ & Hall & Hlen2 & Hcbr).
  - split; [congruence|]. split.
    + intros i. destruct (Hcbr i) as [Hsame | (kv & Hin & Hidx & Hset)]; [by left|].
      right. exists kv.1, kv.2. apply rangeMap_elem in Hin.
      split; [done|]. split; [|done].
      rewrite <- Hidx. symmetry. apply (hitIndex_entry D kv.1); auto.
    + intros key dv Hdv.
      destruct (Hall (key, dv)) as [[f Hf] (items' & Hitems' & Hkey)];
        [by apply rangeMap_elem|]. cbn [snd] in *.
      destruct (Hinv _ f Hf) as (Hpath & Hos & items & Hitems & Hwf & _).
      rewrite Hpath in Hos, Hitems. rewrite Hitems in Hitems'. injection Hitems' as <-.
      split; [done|]. exists items. by split.
  - rewrite keysOf_range by done. apply rangeMap_NoDup.
  - intros k _. set_solver.
  - intros tok f Hf. by rewrite lookup_empty in Hf.
Qed.

End CastVotes.

Section Commands.
Context `{Primitives}.

Lemma pluginCastVotes_world (g : gitBackEnd) (env : Env) (payload : string) (w : World) :
  (pluginCastVotes g env payload w).2 = (castVoteReplies g env payload w).2.
Proof.
  unfold pluginCastVotes.
  by destruct (castVoteReplies g env payload w) as [[[cbr|e]|msg] w'].
Qed.

Lemma pluginCastVotes_Ok (g : gitBackEnd) (env : Env) (payload reply : string)
    (w w' : World) :
  pluginCastVotes g env payload w = (Done (Ok reply), w') →
  ∃ cbr, castVoteReplies g env payload w = (Done (Ok cbr), w') ∧
         encodeReplies cbr = Ok reply.
Proof.
  unfold pluginCastVotes.
  destruct (castVoteReplies g env payload w) as [[[cbr|e]|msg] w1]; intros [= Henc <-].
  by exists cbr.
Qed.

Lemma pluginStartVote_disk (g : gitBackEnd) (env : Env) (payload : string) (w : World) :
  disk (pluginStartVote g env payload w).2 = disk w.
Proof.
  unfold pluginStartVote.
  destruct (DecodeVote _); [|done]. destruct (ConvertStringToken _); [|done].
  unfoldM. cbn [fst snd].
  destruct (bestBlock env _).1; [|done]. destruct (decide _); [done|].
  destruct (block env _ _).1; [|done]. destruct (snapshot env _ _).1; [|done].
  destruct (EncodeStartVoteReply _); [|done].
  by destruct (UpdateVettedMetadata env _ _).
Qed.

Lemma NoDoubleVote_same_disk (w w' : World) :
  disk w' = disk w → NoDoubleVote w → NoDoubleVote w'.
Proof. intros Hd Hno p items T K Hp. rewrite Hd in Hp. by eapply Hno. Qed.

Lemma runCommand_NoDoubleVote (c : command) (w : World) :
  NoDoubleVote w → NoDoubleVote (runCommand c w).
Proof.
  destruct c as [g env payload | g env payload | key value]; simpl.
  - rewrite pluginCastVotes_world. apply castVoteReplies_grows.
  - apply NoDoubleVote_same_disk, pluginStartVote_disk.
  - apply NoDoubleVote_same_disk. unfold setDecredPluginSetting. by case_decide.
Qed.

(** C1.  Starting from a disk without a double vote (the empty disk, for
    one), after any sequence of commands, whatever the outside world
    answers to each and whether they return or panic, no votes file holds
    more than one entry for a token [T] and a ticket [K]. *)
Theorem ledger_no_double_vote (cs : list command) (w0 : World)
    (path : string) (items : list LedgerItem) (T K : string) :
  NoDoubleVote w0 →
  disk (runCommands cs w0) !! path = Some items →
  (ledgerCount items T K ≤ 1)%nat.
Proof.
  intros Hno Hp. revert Hp. generalize path items T K.
  change (NoDoubleVote (runCommands cs w0)).
  unfold runCommands. revert w0 Hno.
  induction cs as [|c cs IH]; intros w0 Hno; simpl; [done|].
  apply IH. by apply runCommand_NoDoubleVote.
Qed.

End Commands.

Lemma ledger_no_double_vote_witness :
  (ledgerCount [Stored Demo.vote1; Stored Demo.vote2] "abc123" "T1" ≤ 1)%nat.
Proof.
  apply (ledger_no_double_vote
           [CastVotes (Demo.backend 16) (Demo.env 100) "mixed";
            SetSetting "dcrdata" "dcrdata/";
            CastVotes (Demo.backend 16) (Demo.env 100) "one"]
           (Demo.world ∅) "vetted/abc123/votes").
  - intros p items T K Hp. unfold Demo.world in Hp. cbn [disk] in Hp.
    by rewrite lookup_empty in Hp.
  - vm_compute. reflexivity.
Defined.

(** ** pluginCastVotes: the replies *)

Section Replies.
Context `{Primitives}.
Variables (g : gitBackEnd) (env : Env).

Lemma Phase1_valid_entry (settings : gmap string string) (fi : FullIdentity)
    (votes : list CastVote.t) (n : nat) st (j : nat) (vj : CastVote.t) :
  Phase1 g env settings fi votes n st →
  votes !! j = Some vj → validated g env settings vj = None →
  ∃ dv, st.2 !! voteKey vj = Some dv ∧ (index dv ≤ j)%nat.
Proof.
  intros (_ & _ & _ & Hrep) Hj Hval.
  destruct (Hrep j vj Hj) as [(dv & Hdv & Hi & _) | [(e & He & _) | (_ & Hdv & _)]].
  - exists dv. split; [done | lia].
  - congruence.
  - eexists. split; [done | simpl; lia].
Qed.

Lemma castVoteReplies_shapes (payload : string) (w w' : World)
    (cbr : list CastVoteReply.t) :
  castVoteReplies g env payload w = (Done (Ok cbr), w') →
  ∃ votes fiJSON fi,
    DecodeCastVotes (bytesOf payload) = Ok votes ∧
    decredPluginSettings w !! decredPluginIdentity = Some fiJSON ∧
    UnmarshalFullIdentity (bytesOf fiJSON) = Ok fi ∧
    length cbr = length votes ∧
    let settings := decredPluginSettings w in
    let st := verified g env settings fi votes in
    ∀ k v, votes !! k = Some v →
      (cbr !! k = Some (duplicateReply v) ∧
       ∃ dv, st.2 !! voteKey v = Some dv ∧ index dv < k) ∨
      (∃ e, validated g env settings v = Some e ∧
            cbr !! k = Some (invalidReply v e) ∧
            ∀ dv, st.2 !! voteKey v = Some dv → k < index dv) ∨
      (validated g env settings v = None ∧
       st.2 !! voteKey v = Some {| vote := v; index := k |} ∧
       (cbr !! k = Some (signedReply fi v) ∨
        cbr !! k = Some (alreadyVotedReply fi v))).
Proof.
  intros Hrun.
  destruct (castVoteReplies_Ok g env payload w w' cbr Hrun)
    as (votes & fiJSON & fi & Hdec & Hid & Hfi & _ & Hlen & Hcbr & _).
  exists votes, fiJSON, fi. do 4 (split; [done|]). intros settings st k v Hk.
  fold settings in Hcbr. fold st in Hcbr.
  pose proof (Phase1_verified g env settings fi votes) as (_ & _ & Hmap & Hrep).
  fold st in Hmap, Hrep.
  assert (Hat : ∀ key dv, st.2 !! key = Some dv → index dv = k →
                  st.2 !! voteKey v = Some dv).
  { intros key dv Hdv Hi. destruct (Hmap key dv Hdv) as (Hv & Hkey & _).
    rewrite Hi, Hk in Hv. injection Hv as ->. by rewrite Hkey. }
  destruct (Hrep k v Hk) as [(dv & Hdv & Hi & Hr) | [(e & He & Hr & Hi) | (Hval & Hdv & Hr)]].
  - left. split; [|by exists dv].
    destruct (Hcbr k) as [-> | (key & dv' & Hdv' & Hi' & _)]; [done|].
    pose proof (Hat key dv' Hdv' Hi') as Hdv''. rewrite Hdv in Hdv''.
    injection Hdv'' as ->. lia.
  - right. left. exists e. split; [done|]. split; [|done].
    destruct (Hcbr k) as [-> | (key & dv' & Hdv' & Hi' & _)]; [done|].
    pose proof (Hat key dv' Hdv' Hi') as Hdv''. specialize (Hi dv' Hdv''). lia.
  - right. right. split; [done|]. split; [done|].
    destruct (Hcbr k) as [-> | (key & dv' & Hdv' & Hi' & ->)]; [by left|].
    right. by rewrite Hr.
Qed.

(** C3 (amended).  A call that returns a reply returns one entry per
    vote of the batch, at the index of the vote, in one of four shapes: a
    duplicate error alone; the echoed client signature with the error of
    the validation; the echoed client signature with the counter-signature
    and no error; or, for a vote that was signed and then found in the
    ledger, the echoed client signature and the counter-signature together
    with the error "ticket already voted on proposal".  That last shape is
    the only one that carries both an error and a counter-signature. *)
Theorem castVotes_reply_shapes (payload reply : string) (w w' : World) :
  pluginCastVotes g env payload w = (Done (Ok reply), w') →
  ∃ votes fi cbr,
    DecodeCastVotes (bytesOf payload) = Ok votes ∧
    castVoteReplies g env payload w = (Done (Ok cbr), w') ∧
    encodeReplies cbr = Ok reply ∧
    length cbr = length votes ∧
    ∀ k v, votes !! k = Some v →
      ∃ r, cbr !! k = Some r ∧
        (r = duplicateReply v ∨
         (∃ e, validated g env (decredPluginSettings w) v = Some e ∧
               r = invalidReply v e) ∨
         r = signedReply fi v ∨
         r = alreadyVotedReply fi v) ∧
        (CastVoteReply.Error r = "" ∨ CastVoteReply.Signature r = "" ∨
         r = alreadyVotedReply fi v).
Proof.
  intros Hrun. destruct (pluginCastVotes_Ok _ _ _ _ _ _ Hrun) as (cbr & Hcbr & Henc).
  destruct (castVoteReplies_shapes payload w w' cbr Hcbr)
    as (votes & fiJSON & fi & Hdec & _ & _ & Hlen & Hshape).
  exists votes, fi, cbr. do 4 (split; [done|]). intros k v Hk.
  destruct (Hshape k v Hk) as [[Hr _] | [(e & He & Hr & _) | (_ & _ & [Hr|Hr])]];
    eexists; (split; [exact Hr|]); split; eauto 6.
Qed.

(** C10.  Without a usable "fullidentity" setting the command fails with
    an error and leaves the world as it found it: nothing was verified,
    locked, opened or written.  With one, every entry of the reply that is
    an acceptance carries the counter-signature of that identity over the
    signature of the vote at its index, next to the echoed signature. *)
Theorem castVotes_identity (payload : string) (w : World) :
  ((decredPluginSettings w !! decredPluginIdentity = None ∨
    ∃ fiJSON, decredPluginSettings w !! decredPluginIdentity = Some fiJSON ∧
              isOk (UnmarshalFullIdentity (bytesOf fiJSON)) = false) →
   ∃ err, pluginCastVotes g env payload w = (Done (Err err), w)) ∧
  (∀ fiJSON fi reply w',
     decredPluginSettings w !! decredPluginIdentity = Some fiJSON →
     UnmarshalFullIdentity (bytesOf fiJSON) = Ok fi →
     pluginCastVotes g env payload w = (Done (Ok reply), w') →
     ∃ votes cbr,
       DecodeCastVotes (bytesOf payload) = Ok votes ∧
       castVoteReplies g env payload w = (Done (Ok cbr), w') ∧
       encodeReplies cbr = Ok reply ∧
       ∀ k v r, votes !! k = Some v → cbr !! k = Some r → accepted r →
         CastVoteReply.Signature r = counterSignature fi v ∧
         CastVoteReply.ClientSignature r = CastVote.Signature v).
Proof.
  split.
  - intros Hbad. unfold pluginCastVotes, castVoteReplies, getSettings.
    destruct (DecodeCastVotes (bytesOf payload)) as [votes|e]; [|by eexists].
    unfold mbind, M_bind at 1.
    destruct Hbad as [-> | (fiJSON & -> & Hfi)]; [by eexists|].
    destruct (UnmarshalFullIdentity (bytesOf fiJSON)); [done | by eexists].
  - intros fiJSON fi reply w' Hid Hfi Hrun.
    destruct (pluginCastVotes_Ok _ _ _ _ _ _ Hrun) as (cbr & Hcbr & Henc).
    destruct (castVoteReplies_shapes payload w w' cbr Hcbr)
      as (votes & fiJSON' & fi' & Hdec & Hid' & Hfi' & Hlen & Hshape).
    rewrite Hid in Hid'. injection Hid' as <-. rewrite Hfi in Hfi'. injection Hfi' as <-.
    exists votes, cbr. do 3 (split; [done|]). intros k v r Hk Hr [Herr Hsig].
    destruct (Hshape k v Hk) as [[Hr' _] | [(e & He & Hr' & _) | (_ & _ & [Hr'|Hr'])]];
      rewrite Hr in Hr'; injection Hr' as ->; try done.
Qed.

(** C8 (amended).  A vote whose key (token followed by ticket) is that of
    an earlier vote of the batch that passed the validation is marked as a
    duplicate: its turn of the verification loop issues no request and no
    signature check and leaves the dedup map as it was, no entry of the
    dedup map, which is all the ledger loop walks, points at it, and its
    entry in the reply is the duplicate error alone. *)
Theorem castVotes_duplicate_in_batch (payload : string) (w : World)
    (votes : list CastVote.t) (fiJSON : string) (fi : FullIdentity)
    (j k : nat) (vj v : CastVote.t) :
  DecodeCastVotes (bytesOf payload) = Ok votes →
  decredPluginSettings w !! decredPluginIdentity = Some fiJSON →
  UnmarshalFullIdentity (bytesOf fiJSON) = Ok fi →
  votes !! k = Some v → votes !! j = Some vj → j < k →
  voteKey vj = voteKey v →
  validated g env (decredPluginSettings w) vj = None →
  let settings := decredPluginSettings w in
  let st := (castLoop g env settings fi 0 (take k votes)
               (replicate (length votes) CastVoteReply.zero, ∅)).1 in
  castStep g env settings fi k v st
    = ((alter (CastVoteReply.setError (duplicateVote v)) k st.1, st.2), []) ∧
  (∀ key dv, (verified g env settings fi votes).2 !! key = Some dv → index dv ≠ k) ∧
  (∀ cbr w', castVoteReplies g env payload w = (Done (Ok cbr), w') →
             cbr !! k = Some (duplicateReply v)).
Proof.
  intros Hdec Hid Hfi Hk Hj Hjk Hkey Hval settings st.
  pose proof (Phase1_verified g env settings fi votes) as Hfull.
  destruct (Phase1_valid_entry settings fi votes _ _ j vj Hfull Hj Hval)
    as (dv & Hdv & Hi).
  rewrite Hkey in Hdv.
  split; [|split].
  - assert (Hpre : Phase1 g env settings fi (take k votes) (length votes) st).
    { apply Phase1_castLoop. rewrite length_take. lia. }
    destruct (Phase1_valid_entry settings fi (take k votes) _ _ j vj Hpre)
      as (dv' & Hdv' & _); [by rewrite lookup_take_lt | done |].
    rewrite Hkey in Hdv'. unfold castStep. destruct st as [cbr D].
    cbn [fst snd] in *. by rewrite Hdv'.
  - intros key dv' Hdv' Hi'. destruct Hfull as (_ & _ & Hmap & _).
    destruct (Hmap key dv' Hdv') as (Hv & Hkey' & _).
    rewrite Hi', Hk in Hv. injection Hv as Hv. rewrite Hv, Hkey' in Hdv.
    fold settings in Hdv. rewrite Hdv' in Hdv. injection Hdv as ->. lia.
  - intros cbr w' Hrun.
    destruct (castVoteReplies_shapes payload w w' cbr Hrun)
      as (votes' & fiJSON' & fi' & Hdec' & Hid' & Hfi' & Hlen & Hshape).
    rewrite Hdec in Hdec'. injection Hdec' as <-.
    rewrite Hid in Hid'. injection Hid' as <-. rewrite Hfi in Hfi'. injection Hfi' as <-.
    destruct (Hshape k v Hk) as [[Hr _] | [(e & _ & _ & Hlt) | (_ & Hdv' & _)]];
      [done | |].
    + specialize (Hlt dv Hdv). lia.
    + fold settings in Hdv'. rewrite Hdv in Hdv'. injection Hdv' as ->. simpl in Hi. lia.
Qed.

End Replies.

Lemma castVotes_reply_shapes_witness :
  pluginCastVotes (Demo.backend 16) (Demo.env 100) "scenario" (Demo.world ∅)
  = (Done (Ok "{DsAlice|politeiadDsAlice|},{||duplicate vote token abc123 ticket T1},{||duplicate vote token abc123 ticket T1}"),
     (pluginCastVotes (Demo.backend 16) (Demo.env 100) "scenario" (Demo.world ∅)).2)
  ∧ ∃ (votes : list CastVote.t) (cbr : list CastVoteReply.t),
      DecodeCastVotes (bytesOf "scenario") = Ok votes ∧ length cbr = length votes.
Proof.
  assert (Hrun :
    pluginCastVotes (Demo.backend 16) (Demo.env 100) "scenario" (Demo.world ∅)
    = (Done (Ok "{DsAlice|politeiadDsAlice|},{||duplicate vote token abc123 ticket T1},{||duplicate vote token abc123 ticket T1}"),
       (pluginCastVotes (Demo.backend 16) (Demo.env 100) "scenario" (Demo.world ∅)).2))
    by (vm_compute; reflexivity).
  split; [exact Hrun|].
  destruct (castVotes_reply_shapes _ _ _ _ _ _ Hrun)
    as (votes & fi & cbr & Hdec & _ & _ & Hlen & _).
  exists votes, cbr. exact (conj Hdec Hlen).
Defined.

(** C3, as first stated, fails on the code: when the ledger of abc123
    already holds the vote of ticket T1, a batch with that vote returns
    one entry that carries the error "ticket already voted on proposal"
    and the counter-signature. *)
Lemma castVotes_reply_shapes_counterexample :
  let w := Demo.world {[ "vetted/abc123/votes" := [Stored Demo.vote1] ]} in
  let r := CastVoteReply.mk "DsAlice" "politeiadDsAlice"
             "ticket already voted on proposal" in
  (castVoteReplies (Demo.backend 16) (Demo.env 100) "one" w).1 = Done (Ok [r])
  ∧ (pluginCastVotes (Demo.backend 16) (Demo.env 100) "one" w).1
    = Done (Ok "{DsAlice|politeiadDsAlice|ticket already voted on proposal}")
  ∧ CastVoteReply.Error r ≠ "" ∧ CastVoteReply.Signature r ≠ "".
Proof. vm_compute. repeat split; discriminate. Qed.

Lemma castVotes_identity_witness :
  (∃ err, pluginCastVotes (Demo.backend 16) (Demo.env 100) "one"
            {| decredPluginSettings := ∅; disk := ∅; trace := [] |}
          = (Done (Err err), {| decredPluginSettings := ∅; disk := ∅; trace := [] |}))
  ∧ (∃ votes cbr,
       DecodeCastVotes (bytesOf "one") = Ok votes ∧
       castVoteReplies (Demo.backend 16) (Demo.env 100) "one" (Demo.world ∅)
       = (Done (Ok cbr),
          (pluginCastVotes (Demo.backend 16) (Demo.env 100) "one" (Demo.world ∅)).2)).
Proof.
  split.
  - apply (castVotes_identity (Demo.backend 16) (Demo.env 100) "one"
             {| decredPluginSettings := ∅; disk := ∅; trace := [] |}).
    left. reflexivity.
  - destruct (proj2 (castVotes_identity (Demo.backend 16) (Demo.env 100) "one"
                       (Demo.world ∅))
                "politeiad" "politeiad" "{DsAlice|politeiadDsAlice|}"
                (pluginCastVotes (Demo.backend 16) (Demo.env 100) "one" (Demo.world ∅)).2)
      as (votes & cbr & Hdec & Hrun & _).
    + reflexivity.
    + reflexivity.
    + vm_compute. reflexivity.
    + exists votes, cbr. exact (conj Hdec Hrun).
Defined.

Lemma castVotes_duplicate_in_batch_witness :
  castStep (Demo.backend 16) (Demo.env 100) Demo.settings "politeiad" 1 Demo.vote1
    (castLoop (Demo.backend 16) (Demo.env 100) Demo.settings "politeiad" 0
       (take 1 [Demo.vote1; Demo.vote1])
       (replicate 2 CastVoteReply.zero, ∅)).1
  = ((alter (CastVoteReply.setError (duplicateVote Demo.vote1)) 1
        (castLoop (Demo.backend 16) (Demo.env 100) Demo.settings "politeiad" 0
           (take 1 [Demo.vote1; Demo.vote1])
           (replicate 2 CastVoteReply.zero, ∅)).1.1,
      (castLoop (Demo.backend 16) (Demo.env 100) Demo.settings "politeiad" 0
         (take 1 [Demo.vote1; Demo.vote1])
         (replicate 2 CastVoteReply.zero, ∅)).1.2), []).
Proof.
  apply (castVotes_duplicate_in_batch (Demo.backend 16) (Demo.env 100) "twice"
           (Demo.world ∅) [Demo.vote1; Demo.vote1] "politeiad" "politeiad"
           0 1 Demo.vote1 Demo.vote1); try reflexivity.
  lia.
Defined.

(** C8, as first stated, fails on the code: in the batch made of a vote
    of ticket T1 with a wrong signature and then the vote of T1 with the
    right one, the second vote has the key of an earlier vote of the batch,
    yet its turn of the loop queries dcrdata and checks the signature, and
    the vote is accepted. *)
Lemma castVotes_duplicate_in_batch_counterexample :
  let votes := [Demo.vote1bad; Demo.vote1] in
  let g := Demo.backend 16 in
  let env := Demo.env 100 in
  DecodeCastVotes (bytesOf "retry") = Ok votes
  ∧ (CastVote.Token Demo.vote1bad, CastVote.Ticket Demo.vote1bad)
    = (CastVote.Token Demo.vote1, CastVote.Ticket Demo.vote1)
  ∧ (castStep g env Demo.settings "politeiad" 1 Demo.vote1
       (castLoop g env Demo.settings "politeiad" 0 (take 1 votes)
          (replicate 2 CastVoteReply.zero, ∅)).1).2
    = [EvHttpGet "dcrdata/api/tx/T1";
       EvVerifyMessage "DsAlice" "abc123T1yes" "DsAlice"]
  ∧ (castVoteReplies g env "retry" (Demo.world ∅)).1
    = Done (Ok [invalidReply Demo.vote1bad "could not verify message";
                signedReply "politeiad" Demo.vote1]).
Proof. vm_compute. repeat split. Qed.

(** C4 does not hold of the code: with a corrupt record in the votes file
    of abc123, a batch with valid votes for abc123 and for fff000 makes
    the command panic in the replay of the first file; no reply is
    produced and the vote for fff000 is never stored. *)
Lemma castVotes_corrupt_ledger_panics :
  let env := reorder (λ key, if decide (key = "fff000T1") then 1 else 0)
                     String.length (Demo.env 100) in
  let w := Demo.world {[ "vetted/abc123/votes" := [Corrupt "invalid character"] ]} in
  (pluginCastVotes (Demo.backend 16) env "mixed" w).1
    = Panicked "zzz invalid character"
  ∧ disk (pluginCastVotes (Demo.backend 16) env "mixed" w).2
      !! "vetted/fff000/votes" = None.
Proof. vm_compute. split; reflexivity. Qed.

(** ** pluginCastVotes: the same batch a second time *)

Section Replay2.
Context `{Primitives}.
Variables (g : gitBackEnd) (env : Env).

Lemma castLoop_reorder (rankVotes rankFiles : string → nat)
    (settings : gmap string string) (fi : FullIdentity) (votes : list CastVote.t) :
  ∀ k st,
    castLoop g (reorder rankVotes rankFiles env) settings fi k votes st
    = castLoop g env settings fi k votes st.
Proof.
  induction votes as [|v votes IH]; intros k st; [done|].
  cbn [castLoop]. 
  change (castStep g (reorder rankVotes rankFiles env) settings fi k v st)
    with (castStep g env settings fi k v st).
  destruct (castStep g env settings fi k v st) as [st1 evs1]. by rewrite IH.
Qed.

Section Marks.
Variable D : gmap string dedupVote.

Lemma foldl_mark_length (L : list (string * dedupVote)) : ∀ cbr,
  length (foldl (markHit D) cbr L) = length cbr.
Proof.
  induction L as [|kv L IH]; intros cbr; [done|].
  simpl. rewrite IH. unfold markHit. by rewrite length_alter.
Qed.

Lemma foldl_mark_keep (L : list (string * dedupVote)) : ∀ cbr i r,
  cbr !! i = Some r → CastVoteReply.Error r = alreadyVoted →
  ∃ r', foldl (markHit D) cbr L !! i = Some r' ∧ CastVoteReply.Error r' = alreadyVoted.
Proof.
  induction L as [|kv L IH]; intros cbr i r Hi Hr; [by exists r|].
  simpl. destruct (decide (hitIndex D kv.2 = i)) as [<-|Hne].
  - eapply IH; [unfold markHit; by rewrite list_lookup_alter_eq, Hi | done].
  - eapply IH; [unfold markHit; by rewrite list_lookup_alter_ne | done].
Qed.

Lemma foldl_mark_hit (L : list (string * dedupVote)) : ∀ cbr i kv,
  kv ∈ L → hitIndex D kv.2 = i → i < length cbr →
  ∃ r, foldl (markHit D) cbr L !! i = Some r ∧ CastVoteReply.Error r = alreadyVoted.
Proof.
  induction L as [|kv0 L IH]; intros cbr i kv Hin Hi Hlen.
  - by apply elem_of_nil in Hin.
  - simpl. apply elem_of_cons in Hin as [->|Hin].
    + destruct (lookup_lt_is_Some_2 cbr i Hlen) as [r Hr].
      eapply foldl_mark_keep; [unfold markHit; by rewrite Hi, list_lookup_alter_eq, Hr | done].
    + eapply IH; [done | done |]. unfold markHit. by rewrite length_alter.
Qed.

End Marks.

(** A call on a batch whose verified votes are all recorded already. *)
Lemma castVoteReplies_again (payload : string) (w : World)
    (votes : list CastVote.t) (fiJSON : string) (fi : FullIdentity) :
  DecodeCastVotes (bytesOf payload) = Ok votes →
  decredPluginSettings w !! decredPluginIdentity = Some fiJSON →
  UnmarshalFullIdentity (bytesOf fiJSON) = Ok fi →
  lockLock env = None → shutdown g = false →
  gitCheckout env (unvetted g) "master" = None →
  gitPull env (unvetted g) true = None →
  let st := verified g env (decredPluginSettings w) fi votes in
  (∀ key dv, st.2 !! key = Some dv → recorded g env (disk w) (vote dv)) →
  ∃ cbr w',
    castVoteReplies g env payload w = (Done (Ok cbr), w') ∧
    disk w' = disk w ∧
    length cbr = length votes ∧
    ∀ key dv, st.2 !! key = Some dv →
      ∃ r, cbr !! index dv = Some r ∧ CastVoteReply.Error r = alreadyVoted.
Proof.
  intros Hdec Hid Hfi Hlock Hshut Hco Hpull st Hrec.
  rewrite (castVoteReplies_run g env payload w votes fiJSON fi) by done.
  pose proof (Phase1_verified g env (decredPluginSettings w) fi votes)
    as (Hlen & _ & Hmap & _).
  fold st in Hlen, Hmap. unfold verified in st.
  destruct (castLoop _ _ _ _ _ _ _) as [[cbr1 D] evs]. subst st. cbn [fst snd] in *.
  destruct (storeLoop_replay g env D (disk w) (rangeMap (rangeDedupVotes env) D)
              ∅ cbr1 (lockedWorld g evs w)) as (files & w2 & Hrun & Hd & _).
  - done.
  - intros kv Hin. apply (Hrec kv.1). by apply rangeMap_elem in Hin.
  - intros tok f Hf. by rewrite lookup_empty in Hf.
  - rewrite Hrun. eexists _, _. split; [reflexivity|]. split; [done|].
    split; [by rewrite foldl_mark_length|].
    intros key dv Hdv. destruct (Hmap key dv Hdv) as (Hv & Hkey & _).
    apply (foldl_mark_hit D _ cbr1 (index dv) (key, dv)).
    + by apply rangeMap_elem.
    + by apply (hitIndex_entry D key).
    + rewrite Hlen. by apply lookup_lt_Some in Hv.
Qed.

End Replay2.

Section Idempotence.
Context `{Primitives}.
Variables (g : gitBackEnd) (env : Env).

(** C2.  When a call has returned a reply whose entries are all
    acceptances, the same batch submitted again to the same outside world
    (the order of the map walks apart) returns a reply of the same length
    whose entries all carry the error "ticket already voted on proposal",
    and leaves every votes file as it was. *)
Theorem castVotes_idempotent (payload : string) (w0 w1 : World)
    (cbr1 : list CastVoteReply.t) (rankVotes rankFiles : string → nat) :
  castVoteReplies g env payload w0 = (Done (Ok cbr1), w1) →
  Forall accepted cbr1 →
  let env2 := reorder rankVotes rankFiles env in
  ∃ cbr2 w2,
    castVoteReplies g env2 payload w1 = (Done (Ok cbr2), w2) ∧
    pluginCastVotes g env2 payload w1 = (Done (encodeReplies cbr2), w2) ∧
    length cbr2 = length cbr1 ∧
    Forall (λ r, CastVoteReply.Error r = alreadyVoted) cbr2 ∧
    disk w2 = disk w1.
Proof.
  intros Hrun Hacc env2.
  destruct (castVoteReplies_Ok g env payload w0 w1 cbr1 Hrun)
    as (votes & fiJSON & fi & Hdec & Hid & Hfi & (Hlock & Hshut & Hco & Hpull)
        & Hlen & _ & Hrec).
  destruct (castVoteReplies_shapes g env payload w0 w1 cbr1 Hrun)
    as (votes' & fiJSON' & fi' & Hdec' & Hid' & Hfi' & _ & Hshape).
  rewrite Hdec in Hdec'. injection Hdec' as <-.
  rewrite Hid in Hid'. injection Hid' as <-. rewrite Hfi in Hfi'. injection Hfi' as <-.
  pose proof (castVoteReplies_grows g env payload w0) as (Hset & _).
  rewrite Hrun in Hset. cbn [snd] in Hset.
  assert (Hst : verified g env2 (decredPluginSettings w1) fi votes
                = verified g env (decredPluginSettings w0) fi votes).
  { unfold verified, env2. by rewrite (castLoop_reorder g env), Hset. }
  destruct (castVoteReplies_again g env2 payload w1 votes fiJSON fi)
    as (cbr2 & w2 & Hrun2 & Hd2 & Hlen2 & Hhit); try done.
  { by rewrite Hset. }
  { rewrite Hst. intros key dv Hdv. exact (Hrec key dv Hdv). }
  exists cbr2, w2. split; [done|]. split; [|split; [congruence|split; [|done]]].
  - unfold pluginCastVotes. by rewrite Hrun2.
  - apply Forall_lookup. intros k r2 Hk2.
    assert (Hk : k < length votes) by (rewrite <- Hlen2; by eapply lookup_lt_Some).
    destruct (lookup_lt_is_Some_2 votes k Hk) as [v Hv].
    rewrite Hst in Hhit.
    destruct (Hshape k v Hv) as [[Hr _] | [(e & _ & Hr & _) | (_ & Hdv & [Hr|Hr])]].
    + pose proof (Forall_lookup_1 _ _ _ _ Hacc Hr) as [_ Hsig]. done.
    + pose proof (Forall_lookup_1 _ _ _ _ Hacc Hr) as [_ Hsig]. done.
    + destruct (Hhit _ _ Hdv) as (r & Hr2 & Herr). cbn [index] in Hr2.
      rewrite Hk2 in Hr2. by injection Hr2 as ->.
    + pose proof (Forall_lookup_1 _ _ _ _ Hacc Hr) as [Herr _]. done.
Qed.

End Idempotence.

Lemma castVotes_idempotent_witness :
  let w1 := (castVoteReplies (Demo.backend 16) (Demo.env 100) "mixed" (Demo.world ∅)).2 in
  ∃ cbr2 w2,
    castVoteReplies (Demo.backend 16) (reorder String.length (λ _, 0) (Demo.env 100))
      "mixed" w1 = (Done (Ok cbr2), w2) ∧
    Forall (λ r, CastVoteReply.Error r = alreadyVoted) cbr2 ∧
    disk w2 = disk w1.
Proof.
  intros w1.
  destruct (castVotes_idempotent (Demo.backend 16) (Demo.env 100) "mixed"
              (Demo.world ∅) w1
              [@signedReply Demo.primitives "politeiad" Demo.vote1;
               @signedReply Demo.primitives "politeiad" Demo.vote2;
               @signedReply Demo.primitives "politeiad" Demo.vote3]
              String.length (λ _, 0))
    as (cbr2 & w2 & Hrun & _ & _ & Hall & Hdisk).
  - vm_compute. reflexivity.
  - repeat constructor; discriminate.
  - exists cbr2, w2. exact (conj Hrun (conj Hall Hdisk)).
Defined.

(** * Further properties of the plugin *)

(** ** The settings map *)

(** X1.  Reading a setting back with the zero-value lookup the code uses
    gives the value just set, the empty string included (it deletes the
    key and a missing key reads as the empty string); the other keys, the
    disk and the trace are untouched. *)
Theorem setDecredPluginSetting_read_back (key value : string) (w : World) :
  let w' := setDecredPluginSetting key value w in
  setting (decredPluginSettings w') key = value ∧
  (∀ key', key' ≠ key →
     decredPluginSettings w' !! key' = decredPluginSettings w !! key') ∧
  (decredPluginSettings w' !! key = None ↔ value = "") ∧
  disk w' = disk w ∧ trace w' = trace w.
Proof.
  unfold setDecredPluginSetting, setting.
  destruct (decide (value = "")) as [->|Hne]; cbn [decredPluginSettings disk trace].
  - rewrite lookup_delete_eq. split; [done|]. split; [|done].
    intros key' Hk. by rewrite lookup_delete_ne.
  - rewrite lookup_insert_eq. split; [done|]. split; [|by split].
    intros key' Hk. by rewrite lookup_insert_ne.
Qed.

(** X2.  The last write wins: setting a key twice leaves the world the
    second call alone would leave. *)
Theorem setDecredPluginSetting_overwrite (key v1 v2 : string) (w : World) :
  setDecredPluginSetting key v2 (setDecredPluginSetting key v1 w)
  = setDecredPluginSetting key v2 w.
Proof.
  unfold setDecredPluginSetting.
  destruct (decide (v1 = "")), (decide (v2 = ""));
    cbn [decredPluginSettings disk trace]; f_equal.
  - apply map_eq. intros k. destruct (decide (k = key)) as [->|Hk].
    + by rewrite !lookup_delete_eq.
    + by rewrite !lookup_delete_ne.
  - apply map_eq. intros k. destruct (decide (k = key)) as [->|Hk].
    + by rewrite !lookup_insert_eq.
    + by rewrite !lookup_insert_ne, lookup_delete_ne.
  - apply map_eq. intros k. destruct (decide (k = key)) as [->|Hk].
    + by rewrite !lookup_delete_eq.
    + by rewrite !lookup_delete_ne, lookup_insert_ne.
  - apply insert_insert_eq.
Qed.

Section MoreCommands.
Context `{Primitives}.

Lemma pluginCastVotes_no_identity (g : gitBackEnd) (env : Env) (payload : string)
    (w : World) :
  decredPluginSettings w !! decredPluginIdentity = None →
  ∃ err, pluginCastVotes g env payload w = (Done (Err err), w).
Proof.
  intros Hid. unfold pluginCastVotes, castVoteReplies, getSettings.
  destruct (DecodeCastVotes (bytesOf payload)) as [votes|e]; [|by eexists].
  unfold mbind, M_bind at 1. rewrite Hid. by eexists.
Qed.

(** X3.  [getDecredPlugin] replaces the settings map by one that holds
    the dcrdata URL of the chosen network and nothing else, whatever was
    set before; the descriptor it returns lists that same setting.  Since
    the identity setting is gone with the rest, a [pluginCastVotes] call made
    next fails with an error and changes nothing. *)
Theorem getDecredPlugin_resets (id version : string) (testnet : bool) (w : World)
    (g : gitBackEnd) (env : Env) (payload : string) :
  let url := if testnet then "https://testnet.dcrdata.org:443/"
             else "https://dcrdata.org:443/" in
  let w' := {| decredPluginSettings := {[ "dcrdata" := url ]};
               disk := disk w; trace := trace w |} in
  getDecredPlugin id version testnet w
    = (Done (Plugin.mk id version [PluginSetting.mk "dcrdata" url]), w') ∧
  (bestBlock env (decredPluginSettings w')).2 = [EvHttpGet (url +:+ "api/block/best")] ∧
  ∃ err, pluginCastVotes g env payload w' = (Done (Err err), w').
Proof.
  intros url w'. split; [|split].
  - unfold getDecredPlugin, w', url. destruct testnet; cbn; by rewrite insert_empty.
  - unfold bestBlock, setting, w'. cbn [snd decredPluginSettings].
    by rewrite lookup_singleton_eq.
  - apply pluginCastVotes_no_identity. unfold w'. cbn [decredPluginSettings].
    by apply lookup_singleton_ne.
Qed.

(** X4.  [pluginBestBlock] makes one request, to the best-block URL, and
    nothing else; it returns the decimal height of the block dcrdata
    answers with, or dcrdata's error unchanged.  When it fails,
    [pluginStartVote] on a decodable request fails in the same world with the
    same error behind the prefix "bestBlock ". *)
Theorem pluginBestBlock_spec (g : gitBackEnd) (env : Env) (w : World) :
  let url := setting (decredPluginSettings w) "dcrdata" +:+ "api/block/best" in
  (pluginBestBlock g env w).2 = logged [EvHttpGet url] w ∧
  (∀ s, (pluginBestBlock g env w).1 = Done (Ok s) ↔
        ∃ bb, getBlock env url = Ok bb ∧ s = FormatUint (Height bb)) ∧
  (∀ err, (pluginBestBlock g env w).1 = Done (Err err) ↔ getBlock env url = Err err) ∧
  (∀ err payload vote token,
     (pluginBestBlock g env w).1 = Done (Err err) →
     DecodeVote (bytesOf payload) = Ok vote →
     ConvertStringToken (Vote_Token vote) = Ok token →
     pluginStartVote g env payload w
       = (Done (Err ("bestBlock " +:+ err)), logged [EvHttpGet url] w)).
Proof.
  intros url. unfold pluginBestBlock, pluginStartVote. unfoldM. unfold bestBlock.
  cbn [fst snd]. fold url.
  destruct (getBlock env url) as [bb|e] eqn:Hbb; cbn [fst snd].
  - split; [done|]. split; [|split].
    + intros s. split; [intros [= <-]; by exists bb | intros (bb' & [= <-] & ->); done].
    + intros err. split; intros [=].
    + intros err payload vote token [=].
  - split; [done|]. split; [|split].
    + intros s. split; [intros [=] | intros (bb' & [=] & _)].
    + intros err. split; intros [= <-]; done.
    + intros err payload vote token [= <-] Hvote Htoken. rewrite Hvote, Htoken.
      cbn [fst snd]. fold url. by rewrite Hbb.
Qed.

(** X5.  [verifyMessage] answers [true] only with a nil error and only
    when the address decodes to a pay-to-pubkey-hash address, the
    signature is base64, a key is recovered from it over the hash of the
    message, and the address built from that key encodes to the very
    string given.  It returns an error exactly when one of the three input
    guards fails. *)
Theorem verifyMessage_sound (g : gitBackEnd) (address message signature : string) :
  ((verifyMessage g address message signature).1 = true →
   (verifyMessage g address message signature).2 = None ∧
   ∃ addr sig pk wasCompressed a,
     DecodeAddress address = Ok addr ∧ isAddressPubKeyHash addr = true ∧
     base64_DecodeString signature = Ok sig ∧
     RecoverCompact sig (expectedMessageHash message) = Ok (pk, wasCompressed) ∧
     NewAddressSecpPubKey
       (if wasCompressed then SerializeCompressed pk else SerializeUncompressed pk)
       (activeNetParams g) = Ok a ∧
     EncodeAddress a = address) ∧
  ((verifyMessage g address message signature).2 ≠ None ↔
   isOk (DecodeAddress address) = false ∨
   (∃ addr, DecodeAddress address = Ok addr ∧ isAddressPubKeyHash addr = false) ∨
   isOk (base64_DecodeString signature) = false).
Proof.
  unfold verifyMessage.
  destruct (DecodeAddress address) as [addr|e]; cbn [fst snd].
  2:{ split; [done|]. split; [by left | done]. }
  destruct (isAddressPubKeyHash addr) eqn:Hpkh; cbn [negb fst snd].
  2:{ split; [done|]. split; [right; left; by exists addr | done]. }
  destruct (base64_DecodeString signature) as [sig|e]; cbn [fst snd].
  2:{ split; [done|]. split; [by right; right | done]. }
  assert (Hnone : ¬ (isOk (Ok addr) = false ∨
            (∃ addr0 : Address, Ok addr = Ok addr0 ∧ isAddressPubKeyHash addr0 = false)
            ∨ isOk (Ok sig) = false)).
  { intros [?|[(addr0 & [= <-] & Hf)|?]]; [done | congruence | done]. }
  destruct (RecoverCompact sig (expectedMessageHash message)) as [[pk c]|e] eqn:Hrec;
    cbn [fst snd].
  2:{ split; [done|]. split; [done | by intros ?%Hnone]. }
  destruct (NewAddressSecpPubKey _ _) as [a|e] eqn:Hnew; cbn [fst snd].
  2:{ split; [done|]. split; [done | by intros ?%Hnone]. }
  split; [|split; [done | by intros ?%Hnone]].
  intros Heq%bool_decide_eq_true. split; [done|]. by exists addr, sig, pk, c, a.
Qed.

(** X6.  [validateVote] accepts a vote exactly when the ticket's
    largest-commitment address is found, the signature is hexadecimal, and
    [verifyMessage] matches that address over the message made of token,
    ticket and vote bit, in that order, with the signature re-encoded in
    base64.  The signature check is attempted only once the address is
    known and the signature decoded. *)
Theorem validateVote_accepts (g : gitBackEnd) (env : Env)
    (settings : gmap string string) (token ticket votebit signature : string) :
  let r := validateVote g env settings token ticket votebit signature in
  (r.1 = None ↔
   ∃ addr sig,
     (largestCommitmentAddress env settings ticket).1 = Ok addr ∧
     hex_DecodeString signature = Ok sig ∧
     verifyMessage g addr (token +:+ ticket +:+ votebit) (base64_EncodeToString sig)
       = (true, None)) ∧
  (∀ a m s, EvVerifyMessage a m s ∈ r.2 →
     (largestCommitmentAddress env settings ticket).1 = Ok a ∧
     m = token +:+ ticket +:+ votebit ∧
     ∃ sig, hex_DecodeString signature = Ok sig ∧ s = base64_EncodeToString sig).
Proof.
  intros r. subst r. unfold validateVote.
  destruct (largestCommitmentAddress env settings ticket) as [[addr|e] evs] eqn:Hl;
    cbn [fst snd].
  2:{ split; [split; [done | by intros (? & ? & [=] & _)]|].
      intros a m s Hin. exfalso. unfold largestCommitmentAddress in Hl.
      injection Hl as _ <-. by apply list_elem_of_singleton in Hin. }
  assert (Hevs : ∀ a m s, EvVerifyMessage a m s ∉ evs).
  { intros a m s Hin. unfold largestCommitmentAddress in Hl.
    injection Hl as _ <-. by apply list_elem_of_singleton in Hin. }
  destruct (hex_DecodeString signature) as [sig|e]; cbn [fst snd].
  2:{ split; [split; [done | by intros (? & ? & _ & [=] & _)]|].
      intros a m s Hin. by apply Hevs in Hin. }
  split.
  - destruct (verifyMessage g addr _ _) as [validated [err|]] eqn:Hv; cbn [fst].
    + split; [done|]. intros (? & ? & [= <-] & [= <-] & Hv'). congruence.
    + destruct validated; cbn [fst].
      * split; [by exists addr, sig | done].
      * split; [done|]. intros (? & ? & [= <-] & [= <-] & Hv'). congruence.
  - intros a m s Hin.
    assert (Hin' : EvVerifyMessage a m s
                   ∈ evs ++ [EvVerifyMessage addr (token +:+ ticket +:+ votebit)
                                              (base64_EncodeToString sig)]).
    { destruct (verifyMessage g addr _ _) as [validated [err|]]; [done|].
      by destruct validated. }
    apply elem_of_app in Hin' as [Hin'|Hin']; [by apply Hevs in Hin'|].
    apply list_elem_of_singleton in Hin'. injection Hin' as -> -> ->.
    split; [done|]. split; [done|]. by exists sig.
Qed.

End MoreCommands.

Lemma pluginBestBlock_spec_witness :
  let w := {| decredPluginSettings := {[ "fullidentity" := "politeiad" ]};
              disk := ∅; trace := [] |} in
  pluginStartVote (Demo.backend 16) (Demo.env 100) "abc123" w
  = (Done (Err "bestBlock 404 page not found"), logged [EvHttpGet "api/block/best"] w).
Proof.
  intros w.
  apply (proj2 (proj2 (proj2 (pluginBestBlock_spec (Demo.backend 16) (Demo.env 100) w)))
           "404 page not found" "abc123" "abc123" (bytesOf "abc123")); reflexivity.
Defined.

Lemma verifyMessage_sound_witness :
  (verifyMessage (Demo.backend 16) "DsAlice" "abc123T1yes" "DsAlice").2 = None ∧
  ∃ addr sig pk wasCompressed a,
    DecodeAddress "DsAlice" = Ok addr ∧ isAddressPubKeyHash addr = true ∧
    base64_DecodeString "DsAlice" = Ok sig ∧
    RecoverCompact sig (expectedMessageHash "abc123T1yes") = Ok (pk, wasCompressed) ∧
    NewAddressSecpPubKey
      (if wasCompressed then SerializeCompressed pk else SerializeUncompressed pk)
      (activeNetParams (Demo.backend 16)) = Ok a ∧
    EncodeAddress a = "DsAlice".
Proof.
  apply (proj1 (verifyMessage_sound (Demo.backend 16) "DsAlice" "abc123T1yes" "DsAlice")).
  reflexivity.
Defined.

Lemma validateVote_accepts_witness :
  ∃ addr sig,
    (largestCommitmentAddress (Demo.env 100) Demo.settings "T1").1 = Ok addr ∧
    hex_DecodeString "DsAlice" = Ok sig ∧
    verifyMessage (Demo.backend 16) addr ("abc123" +:+ "T1" +:+ "yes")
      (base64_EncodeToString sig) = (true, None).
Proof.
  apply (proj1 (proj1 (validateVote_accepts (Demo.backend 16) (Demo.env 100)
                         Demo.settings "abc123" "T1" "yes" "DsAlice"))).
  vm_compute. reflexivity.
Defined.

(** ** pluginStartVote: what it leaves behind *)

Section StartVoteEffects.
Context `{Primitives}.

(** X7.  A successful [pluginStartVote] has made three dcrdata requests (best
    block, block by height, ticket pool) and then one metadata update on
    the decoded token with two streams: the vote-bits stream carries the
    request payload unchanged and the snapshot stream carries the very
    string returned to the caller.  Disk and settings are untouched. *)
Theorem pluginStartVote_success_effects (g : gitBackEnd) (env : Env)
    (payload reply : string) (w w' : World) :
  pluginStartVote g env payload w = (Done (Ok reply), w') →
  ∃ vote token bb snapshotBlock,
    let settings := decredPluginSettings w in
    let height := uint32 (Height bb - uint32 (TicketMaturity (activeNetParams g))) in
    let streams := [ {| ID := MDStreamVoteBits; Payload := payload |};
                     {| ID := MDStreamVoteSnapshot; Payload := reply |} ] in
    DecodeVote (bytesOf payload) = Ok vote ∧
    ConvertStringToken (Vote_Token vote) = Ok token ∧
    (bestBlock env settings).1 = Ok bb ∧
    (block env settings height).1 = Ok snapshotBlock ∧
    UpdateVettedMetadata env token streams = None ∧
    w' = logged ((bestBlock env settings).2 ++ (block env settings height).2
                 ++ (snapshot env settings (Hash snapshotBlock)).2
                 ++ [EvUpdateVettedMetadata token streams]) w.
Proof.
  unfold pluginStartVote.
  destruct (DecodeVote (bytesOf payload)) as [vote|e] eqn:Hvote; [|by intros [=]].
  destruct (ConvertStringToken (Vote_Token vote)) as [token|e] eqn:Htoken;
    [|by intros [=]].
  unfoldM. cbn [fst snd].
  destruct (bestBlock env _).1 as [bb|e] eqn:Hbb; [|by intros [=]].
  destruct (decide _) as [Hlt|Hge]; [by intros [=]|].
  destruct (block env _ _).1 as [sb|e] eqn:Hsb; [|by intros [=]].
  destruct (snapshot env _ _).1 as [tickets|e] eqn:Hsn; [|by intros [=]].
  destruct (EncodeStartVoteReply _) as [svrb|e] eqn:Hsvr; [|by intros [=]].
  destruct (UpdateVettedMetadata env token _) as [e|] eqn:Hmd; [by intros [=]|].
  intros [= <- <-]. exists vote, token, bb, sb. cbn zeta.
  do 5 (split; [done|]). by rewrite !logged_logged.
Qed.

(** X8.  [pluginStartVote] never panics and only adds to the trace.  The
    metadata update is attempted at most once, as the last action, after
    every request made before it; a call that fails has either not
    attempted it or fails with the error of that very update behind the
    prefix "UpdateVettedMetadata: ". *)
Theorem pluginStartVote_single_write (g : gitBackEnd) (env : Env)
    (payload : string) (w : World) :
  ∃ r requests,
    Forall queryEvent requests ∧
    ((isOk r = false ∧
      pluginStartVote g env payload w = (Done r, logged requests w)) ∨
     ∃ token streams,
       pluginStartVote g env payload w
         = (Done r, logged (requests ++ [EvUpdateVettedMetadata token streams]) w) ∧
       match UpdateVettedMetadata env token streams with
       | Some e => r = Err ("UpdateVettedMetadata: " +:+ e)
       | None => isOk r = true
       end).
Proof.
  unfold pluginStartVote.
  destruct (DecodeVote (bytesOf payload)) as [vote|e].
  2:{ exists (Err ("DecodeVote " +:+ e)), []. split; [constructor|]. left.
      split; [done|]. by rewrite logged_nil. }
  destruct (ConvertStringToken (Vote_Token vote)) as [token|e].
  2:{ exists (Err ("ConvertStringToken " +:+ e)), []. split; [constructor|]. left.
      split; [done|]. by rewrite logged_nil. }
  unfoldM. cbn [fst snd].
  set (q1 := (bestBlock env (decredPluginSettings w)).2).
  assert (Hq1 : Forall queryEvent q1) by (by repeat constructor).
  destruct (bestBlock env _).1 as [bb|e].
  2:{ exists (Err ("bestBlock " +:+ e)), q1. split; [done|]. by left. }
  destruct (decide _) as [Hlt|Hge].
  { exists (Err "invalid height"), q1. split; [done|]. by left. }
  set (q2 := (block env (decredPluginSettings w) _).2).
  assert (Hq2 : Forall queryEvent q2) by (by repeat constructor).
  destruct (block env _ _).1 as [sb|e].
  2:{ exists (Err ("bestBlock " +:+ e)), (q1 ++ q2). split; [by apply Forall_app|].
      left. split; [done|]. by rewrite !logged_logged. }
  set (q3 := (snapshot env (decredPluginSettings w) _).2).
  assert (Hq3 : Forall queryEvent q3) by (by repeat constructor).
  assert (Hq : Forall queryEvent (q1 ++ q2 ++ q3)) by (by rewrite !Forall_app).
  destruct (snapshot env _ _).1 as [tickets|e].
  2:{ exists (Err ("snapshot " +:+ e)), (q1 ++ q2 ++ q3). split; [done|]. left.
      split; [done|]. by rewrite !logged_logged. }
  destruct (EncodeStartVoteReply _) as [svrb|e].
  2:{ exists (Err ("EncodeStartVoteReply: " +:+ e)), (q1 ++ q2 ++ q3).
      split; [done|]. left. split; [done|]. by rewrite !logged_logged. }
  set (streams := [ {| ID := MDStreamVoteBits; Payload := payload |};
                    {| ID := MDStreamVoteSnapshot; Payload := stringOf svrb |} ]).
  exists (match UpdateVettedMetadata env token streams with
          | Some e => Err ("UpdateVettedMetadata: " +:+ e)
          | None => Ok (stringOf svrb)
          end), (q1 ++ q2 ++ q3).
  split; [done|]. right. exists token, streams.
  rewrite !logged_logged, <- !(assoc_L (++)).
  by destruct (UpdateVettedMetadata env token streams).
Qed.

End StartVoteEffects.

Lemma pluginStartVote_success_effects_witness :
  let g := Demo.backend 16 in
  let env := Demo.env 100 in
  let w := Demo.world ∅ in
  ∃ vote token bb snapshotBlock,
    let settings := decredPluginSettings w in
    let height := uint32 (Height bb - uint32 (TicketMaturity (activeNetParams g))) in
    let streams := [ {| ID := MDStreamVoteBits; Payload := "abc123" |};
                     {| ID := MDStreamVoteSnapshot; Payload := "84,hash84,2100,T1;T2" |} ] in
    DecodeVote (bytesOf "abc123") = Ok vote ∧
    ConvertStringToken (Vote_Token vote) = Ok token ∧
    (bestBlock env settings).1 = Ok bb ∧
    (block env settings height).1 = Ok snapshotBlock ∧
    UpdateVettedMetadata env token streams = None ∧
    (pluginStartVote g env "abc123" w).2
    = logged ((bestBlock env settings).2 ++ (block env settings height).2
              ++ (snapshot env settings (Hash snapshotBlock)).2
              ++ [EvUpdateVettedMetadata token streams]) w.
Proof.
  intros g env w.
  apply (pluginStartVote_success_effects g env "abc123" "84,hash84,2100,T1;T2" w
           (pluginStartVote g env "abc123" w).2).
  vm_compute. reflexivity.
Defined.

(** ** pluginCastVotes: what the ledger loop writes and logs *)

Lemma fileAt_created (path p : string) (w : World) :
  fileAt (disk (created path w)) p = fileAt (disk w) p.
Proof.
  unfold fileAt, created. cbn [disk]. destruct (decide (path = p)) as [->|Hne].
  - rewrite lookup_insert_eq. by destruct (disk w !! p).
  - by rewrite lookup_insert_ne.
Qed.

Lemma fileAt_appended (path p : string) (v : CastVote.t) (w : World) :
  fileAt (disk (appended path v w)) p
  = fileAt (disk w) p ++ (if decide (path = p) then [Stored v] else []).
Proof.
  unfold fileAt, appended, appendRecord. cbn [snd disk].
  destruct (decide (path = p)) as [->|Hne].
  - by rewrite lookup_insert_eq.
  - rewrite lookup_insert_ne by done. by rewrite app_nil_r.
Qed.

Section Effects.
Context `{Primitives}.
Variables (g : gitBackEnd) (env : Env) (D : gmap string dedupVote).

Lemma wroteOnly_refl (vs : list CastVote.t) d : wroteOnly g vs d d.
Proof. intros path. exists []. by rewrite app_nil_r. Qed.

Lemma wroteOnly_same (vs : list CastVote.t) d d' :
  (∀ path, fileAt d' path = fileAt d path) → wroteOnly g vs d d'.
Proof. intros Hsame path. exists []. by rewrite app_nil_r, Hsame. Qed.

Lemma wroteOnly_trans (vs1 vs2 vs : list CastVote.t) d1 d2 d3 :
  vs1 ⊆ vs → vs2 ⊆ vs →
  wroteOnly g vs1 d1 d2 → wroteOnly g vs2 d2 d3 → wroteOnly g vs d1 d3.
Proof.
  intros Hs1 Hs2 H12 H23 path.
  destruct (H12 path) as (more1 & E1 & F1). destruct (H23 path) as (more2 & E2 & F2).
  exists (more1 ++ more2). split; [by rewrite E2, E1, (assoc_L (++))|].
  apply Forall_app. split.
  - eapply Forall_impl; [exact F1|]. intros it (v & Hv & ? & ?). exists v. auto.
  - eapply Forall_impl; [exact F2|]. intros it (v & Hv & ? & ?). exists v. auto.
Qed.

Lemma storeVote_effects (dv : dedupVote) files cbr w o w' :
  PathInv g files →
  storeVote g env D dv (files, cbr) w = (o, w') →
  ∃ evs,
    decredPluginSettings w' = decredPluginSettings w ∧
    trace w' = trace w ++ evs ∧ Forall ledgerEvent evs ∧
    wroteOnly g [vote dv] (disk w) (disk w') ∧
    match o with
    | Done (files', cbr') =>
      PathInv g files' ∧
      (∀ tok f, files !! tok = Some f → files' !! tok = Some f) ∧
      (∀ path, EvOpenFile path ∈ evs →
         ∃ tok f, files' !! tok = Some f ∧ fileHandle f = path) ∧
      (cbr' = alter (CastVoteReply.setError alreadyVoted) (hitIndex D dv) cbr ∨
       cbr' = cbr ∧
       Stored (vote dv) ∈ fileAt (disk w') (votesPath g (CastVote.Token (vote dv))))
    | Panicked _ => True
    end.
Proof.
  intros Hpath. unfold storeVote.
  set (tok := CastVote.Token (vote dv)). set (key := voteKey (vote dv)).
  assert (Htail : ∀ f files1 w1,
    PathInv g files1 → files1 !! tok = Some f →
    (let '(f, files) := (f, files1) in
     if decide (key ∈ content f)
     then mret (files, alter (CastVoteReply.setError alreadyVoted)
                         (default 0 (index <$> D !! key)) cbr)
     else match fileSeek env (fileHandle f) with
          | Some err => panic ("y " +:+ err)
          | None =>
            match fileEncode env (fileHandle f) (vote dv) with
            | Some err => panic ("z " +:+ err)
            | None => appendRecord (fileHandle f) (vote dv);; mret (files, cbr)
            end
          end) w1 = (o, w') →
    ∃ evs,
      decredPluginSettings w' = decredPluginSettings w1 ∧
      trace w' = trace w1 ++ evs ∧ Forall ledgerEvent evs ∧
      (∀ path, EvOpenFile path ∉ evs) ∧
      wroteOnly g [vote dv] (disk w1) (disk w') ∧
      match o with
      | Done (files', cbr') =>
        files' = files1 ∧
        (cbr' = alter (CastVoteReply.setError alreadyVoted) (hitIndex D dv) cbr ∨
         cbr' = cbr ∧ Stored (vote dv) ∈ fileAt (disk w') (votesPath g tok))
      | Panicked _ => True
      end).
  { intros f files1 w1 Hpath1 Hf.
    assert (Hquiet : ∃ evs : list Event,
      decredPluginSettings w1 = decredPluginSettings w1 ∧
      trace w1 = trace w1 ++ evs ∧ Forall ledgerEvent evs ∧
      (∀ path, EvOpenFile path ∉ evs) ∧ wroteOnly g [vote dv] (disk w1) (disk w1)).
    { exists []. rewrite app_nil_r. repeat split; try done.
      - intros path ?%elem_of_nil. done.
      - apply wroteOnly_refl. }
    destruct Hquiet as (evs0 & Q1 & Q2 & Q3 & Q4 & Q5).
    destruct (decide (key ∈ content f)) as [Hhit|Hmiss].
    { intros [= <- <-]. exists evs0. do 5 (split; [done|]). split; [done | by left]. }
    destruct (fileSeek env (fileHandle f)) as [err|].
    { intros [= <- <-]. exists evs0. by do 5 (split; [done|]). }
    destruct (fileEncode env (fileHandle f) (vote dv)) as [err|].
    { intros [= <- <-]. exists evs0. by do 5 (split; [done|]). }
    unfoldM.
    change (appendRecord (fileHandle f) (vote dv) w1)
      with (Done (), appended (fileHandle f) (vote dv) w1).
    intros [= <- <-].
    exists [EvWrite (fileHandle f) (vote dv)].
    split; [done|]. split; [done|]. split; [by repeat constructor|].
    split; [by intros path [=]%list_elem_of_singleton|]. split.
    - intros path. rewrite fileAt_appended. eexists. split; [reflexivity|].
      destruct (decide (fileHandle f = path)) as [<-|Hne]; [|constructor].
      repeat constructor. exists (vote dv). split; [left|]. split; [done|].
      by apply Hpath1.
    - split; [done|]. right. split; [done|].
      rewrite <- (Hpath1 tok f Hf), fileAt_appended, decide_True by done.
      apply elem_of_app. right. left. }
  destruct (files !! tok) as [f|] eqn:Hf.
  - unfold mbind, M_bind at 1. unfold mret, M_ret at 1. intros Hrun.
    destruct (Htail f files w Hpath Hf Hrun) as (evs & S1 & S2 & S3 & S4 & S5 & Hpost).
    exists evs. do 4 (split; [done|]).
    destruct o as [[files' cbr']|msg]; [|done]. destruct Hpost as [-> Hcbr].
    split; [done|]. split; [done|]. split; [|done].
    intros path Hin. by apply S4 in Hin.
  - pose proof (openVotes_spec g env tok w) as Hspec. cbn zeta in Hspec.
    unfold mbind, M_bind at 1.
    unfold mbind, M_bind at 1.
    set (path := votesPath g tok) in *.
    destruct (osOpenFile env path) as [err|] eqn:Hos.
    + rewrite Hspec. intros [= <- <-]. exists [EvOpenFile path].
      split; [done|]. split; [done|]. split; [by repeat constructor|].
      split; [|done]. by apply wroteOnly_same.
    + set (w1 := created path (logged [EvOpenFile path] w)) in *.
      assert (Hw1 : wroteOnly g [vote dv] (disk w) (disk w1)).
      { apply wroteOnly_same. intros p. unfold w1. by rewrite fileAt_created. }
      destruct Hspec as [[Hwf Hrun] | [Hnot [msg Hrun]]]; rewrite Hrun.
      * unfold mret, M_ret at 1.
        set (f := {| fileHandle := path; content := _ |}).
        assert (Hpath1 : PathInv g (<[tok := f]> files)).
        { intros t f' Ht. destruct (decide (tok = t)) as [<-|Hne].
          - rewrite lookup_insert_eq in Ht. by injection Ht as <-.
          - rewrite lookup_insert_ne in Ht by done. by apply Hpath. }
        intros Hrun'.
        destruct (Htail f (<[tok := f]> files) w1 Hpath1) with (2 := Hrun')
          as (evs & S1 & S2 & S3 & S4 & S5 & Hpost); [by rewrite lookup_insert_eq|].
        exists (EvOpenFile path :: evs).
        split; [done|]. split; [by rewrite S2; cbn; rewrite <- (assoc_L (++))|].
        split; [by constructor|].
        split; [eapply (wroteOnly_trans [vote dv] [vote dv]); done|].
        destruct o as [[files' cbr']|msg]; [|done]. destruct Hpost as [-> Hcbr].
        split; [done|]. split; [|split; [|done]].
        -- intros t f' Ht. rewrite lookup_insert_ne; [done|]. congruence.
        -- intros p [[= <-]|Hin]%elem_of_cons; [|by apply S4 in Hin].
           exists tok, f. by rewrite lookup_insert_eq.
      * intros [= <- <-]. exists [EvOpenFile path].
        split; [done|]. split; [done|]. split; [by repeat constructor|]. by split.
Qed.

Lemma storeLoop_effects (L : list (string * dedupVote)) : ∀ files cbr w o w',
  PathInv g files →
  forEach (λ kv, storeVote g env D kv.2) L (files, cbr) w = (o, w') →
  ∃ evs,
    decredPluginSettings w' = decredPluginSettings w ∧
    trace w' = trace w ++ evs ∧ Forall ledgerEvent evs ∧
    wroteOnly g ((λ kv, vote kv.2) <$> L) (disk w) (disk w') ∧
    match o with
    | Done (files', cbr') =>
      PathInv g files' ∧
      (∀ tok f, files !! tok = Some f → files' !! tok = Some f) ∧
      (∀ path, EvOpenFile path ∈ evs →
         ∃ tok f, files' !! tok = Some f ∧ fileHandle f = path) ∧
      length cbr' = length cbr ∧
      (∀ i r, cbr !! i = Some r → CastVoteReply.Error r = alreadyVoted →
         ∃ r', cbr' !! i = Some r' ∧ CastVoteReply.Error r' = alreadyVoted) ∧
      (∀ kv, kv ∈ L → hitIndex D kv.2 < length cbr →
         Stored (vote kv.2)
           ∈ fileAt (disk w') (votesPath g (CastVote.Token (vote kv.2))) ∨
         ∃ r, cbr' !! hitIndex D kv.2 = Some r ∧
              CastVoteReply.Error r = alreadyVoted)
    | Panicked _ => True
    end.
Proof.
  induction L as [|kv L IH]; intros files cbr w o w' Hpath.
  - rewrite forEach_nil. intros [= <- <-]. exists []. rewrite app_nil_r.
    split; [done|]. split; [done|]. split; [constructor|].
    split; [apply wroteOnly_refl|]. split; [done|]. split; [done|].
    split; [by intros path ?%elem_of_nil|]. split; [done|].
    split; [by eauto|]. by intros kv ?%elem_of_nil.
  - rewrite forEach_cons.
    destruct (storeVote g env D kv.2 (files, cbr) w) as [[[files1 cbr1]|msg] w1] eqn:Hstep.
    + destruct (storeVote_effects kv.2 files cbr w _ _ Hpath Hstep)
        as (evs1 & S1 & T1 & F1 & W1 & Hpath1 & Hsub1 & Hopen1 & Hcbr1).
      intros Hrest.
      destruct (IH files1 cbr1 w1 o w' Hpath1 Hrest)
        as (evs2 & S2 & T2 & F2 & W2 & Hpost).
      exists (evs1 ++ evs2). split; [congruence|].
      split; [by rewrite T2, T1, (assoc_L (++))|]. split; [by apply Forall_app|].
      split.
      { rewrite fmap_cons. eapply (wroteOnly_trans [vote kv.2]); [| |done|done].
        - intros v ->%list_elem_of_singleton. left.
        - intros v Hv. by right. }
      destruct o as [[files' cbr']|msg]; [|done].
      destruct Hpost as (Hpath2 & Hsub2 & Hopen2 & Hlen2 & Hkeep2 & Hall2).
      assert (Hlen1 : length cbr1 = length cbr).
      { destruct Hcbr1 as [-> | [-> _]]; [by rewrite length_alter | done]. }
      split; [done|]. split; [auto|]. split; [|split; [congruence|split]].
      * intros path [Hin|Hin]%elem_of_app; [|by apply Hopen2].
        destruct (Hopen1 path Hin) as (tok & f & Hf & Hp). exists tok, f. auto.
      * intros i r Hi Hr. destruct Hcbr1 as [-> | [-> _]]; [|by eapply Hkeep2].
        destruct (decide (hitIndex D kv.2 = i)) as [<-|Hne].
        -- eapply Hkeep2; [by rewrite list_lookup_alter_eq, Hi | done].
        -- eapply Hkeep2; [by rewrite list_lookup_alter_ne | done].
      * intros kv' [->|Hin]%elem_of_cons Hidx; [|apply Hall2; [done | congruence]].
        destruct Hcbr1 as [-> | [-> Hstored]].
        -- right. destruct (lookup_lt_is_Some_2 cbr _ Hidx) as [r Hr].
           eapply Hkeep2; [by rewrite list_lookup_alter_eq, Hr | done].
        -- left. destruct (W2 (votesPath g (CastVote.Token (vote kv.2))))
             as (more & -> & _). apply elem_of_app. by left.
    + intros [= <- <-].
      destruct (storeVote_effects kv.2 files cbr w _ _ Hpath Hstep)
        as (evs1 & S1 & T1 & F1 & W1 & _).
      exists evs1. do 3 (split; [done|]). split; [|done].
      rewrite fmap_cons. eapply (wroteOnly_trans [vote kv.2] []); [| |done|].
      * intros v ->%list_elem_of_singleton. left.
      * by intros v ?%elem_of_nil.
      * apply wroteOnly_refl.
Qed.

End Effects.

(** ** pluginCastVotes: the shape of every run *)

Section Anatomy.
Context `{Primitives}.
Variables (g : gitBackEnd) (env : Env).

Lemma validateVote_events (settings : gmap string string)
    (token ticket votebit signature : string) :
  Forall queryEvent (validateVote g env settings token ticket votebit signature).2.
Proof.
  unfold validateVote, largestCommitmentAddress.
  destruct (match getTx env _ with Ok _ => _ | Err _ => _ end) as [addr|e];
    cbn [fst snd]; [|by repeat constructor].
  destruct (hex_DecodeString signature) as [sig|e]; [|by repeat constructor].
  destruct (verifyMessage g addr _ _) as [validated [err|]];
    [|destruct validated]; by repeat constructor.
Qed.

Lemma castLoop_events (settings : gmap string string) (fi : FullIdentity)
    (votes : list CastVote.t) : ∀ k st,
  Forall queryEvent (castLoop g env settings fi k votes st).2.
Proof.
  induction votes as [|v votes IH]; intros k st; [constructor|].
  cbn [castLoop].
  destruct (castStep g env settings fi k v st) as [st1 evs1] eqn:Hstep.
  specialize (IH (S k) st1).
  destruct (castLoop g env settings fi (S k) votes st1) as [st2 evs2].
  cbn [snd] in *. apply Forall_app. split; [|done].
  unfold castStep in Hstep. destruct st as [cbr D].
  destruct (D !! voteKey v); [injection Hstep as _ <-; constructor|].
  pose proof (validateVote_events settings (CastVote.Token v) (CastVote.Ticket v)
                (CastVote.VoteBit v) (CastVote.Signature v)) as Hev.
  destruct (validateVote g env settings _ _ _ _) as [[e|] evs];
    by injection Hstep as _ <-.
Qed.

(** Every run of the command: it stops before the verification, or at
    the lock, or between lock and unlock before the ledger loop, or it runs
    the ledger loop. *)
Lemma castVoteReplies_anatomy (payload : string) (w : World) :
  (∃ e, castVoteReplies g env payload w = (Done (Err e), w)) ∨
  ∃ votes fiJSON fi,
    DecodeCastVotes (bytesOf payload) = Ok votes ∧
    decredPluginSettings w !! decredPluginIdentity = Some fiJSON ∧
    UnmarshalFullIdentity (bytesOf fiJSON) = Ok fi ∧
    let run := castLoop g env (decredPluginSettings w) fi 0 votes
                 (replicate (length votes) CastVoteReply.zero, ∅) in
    let locked := logged [EvLock] (logged run.2 w) in
    (∃ e, lockLock env = Some e ∧
          castVoteReplies g env payload w
            = (Done (Err ("pluginCastVotes: lock error try again later: " +:+ e)),
               locked)) ∨
    (lockLock env = None ∧
     ∃ e git, Forall gitEvent git ∧
       castVoteReplies g env payload w
         = (Done (Err e), logged [EvUnlock] (logged git locked))) ∨
    (lockLock env = None ∧ shutdown g = false ∧
     gitCheckout env (unvetted g) "master" = None ∧
     gitPull env (unvetted g) true = None ∧
     castVoteReplies g env payload w =
     match forEach (λ kv, storeVote g env run.1.2 kv.2)
                   (rangeMap (rangeDedupVotes env) run.1.2) (∅, run.1.1)
                   (lockedWorld g run.2 w) with
     | (Done (files, cbr), w2) =>
       (Done (Ok cbr), logged [EvUnlock] (logged (closes env files) w2))
     | (Panicked msg, w2) => (Panicked msg, logged [EvUnlock] w2)
     end).
Proof.
  destruct (DecodeCastVotes (bytesOf payload)) as [votes|e] eqn:Hdec;
    [|left; unfold castVoteReplies; rewrite Hdec; by eexists].
  destruct (decredPluginSettings w !! decredPluginIdentity) as [fiJSON|] eqn:Hid;
    [|left; unfold castVoteReplies, getSettings; rewrite Hdec;
      unfold mbind, M_bind at 1; rewrite Hid; by eexists].
  destruct (UnmarshalFullIdentity (bytesOf fiJSON)) as [fi|e] eqn:Hfi;
    [|left; unfold castVoteReplies, getSettings; rewrite Hdec;
      unfold mbind, M_bind at 1; rewrite Hid, Hfi; by eexists].
  right. exists votes, fiJSON, fi. do 3 (split; [done|]). intros run locked.
  destruct (lockLock env) as [e|] eqn:Hlock.
  { left. exists e. split; [done|]. unfold castVoteReplies, getSettings. rewrite Hdec.
    unfold mbind, M_bind at 1. rewrite Hid, Hfi. unfold query.
    fold run. subst locked. destruct run as [[cbr1 D] evs]. cbn [fst snd]. unfoldM.
    by rewrite Hlock. }
  right.
  assert (Hstop : ∀ b,
    (shutdown g = false → gitCheckout env (unvetted g) "master" = None →
     gitPull env (unvetted g) true = None → b = true) → b = false →
    ∃ e git, Forall gitEvent git ∧
      castVoteReplies g env payload w
        = (Done (Err e), logged [EvUnlock] (logged git locked))).
  { intros b Hb Hfalse. unfold castVoteReplies, getSettings. rewrite Hdec.
    unfold mbind, M_bind at 1. rewrite Hid, Hfi. unfold query.
    fold run. subst locked. destruct run as [[cbr1 D] evs]. cbn [fst snd].
    unfoldM. rewrite Hlock. unfold defer.
    destruct (shutdown g).
    { eexists _, []. split; [constructor|]. by rewrite logged_nil. }
    destruct (gitCheckout env _ _).
    { eexists _, [EvGitCheckout (unvetted g) "master"].
      split; [by repeat constructor | done]. }
    destruct (gitPull env _ _).
    { eexists _, [EvGitCheckout (unvetted g) "master"; EvGitPull (unvetted g)].
      split; [by repeat constructor|]. by rewrite !logged_logged. }
    rewrite Hb in Hfalse; done. }
  destruct (shutdown g) eqn:Hshut; [left; split; [done|]; by apply (Hstop false)|].
  destruct (gitCheckout env (unvetted g) "master") eqn:Hco;
    [left; split; [done|]; by apply (Hstop false)|].
  destruct (gitPull env (unvetted g) true) eqn:Hpull;
    [left; split; [done|]; by apply (Hstop false)|].
  right. do 4 (split; [done|]).
  by apply (castVoteReplies_run g env payload w votes fiJSON fi).
Qed.

End Anatomy.

Section RunShape.
Context `{Primitives}.
Variables (g : gitBackEnd) (env : Env).

Lemma closes_handle (files : gmap string file) (tok : string) (f : file) :
  files !! tok = Some f → EvClose (fileHandle f) ∈ closes env files.
Proof.
  intros Hf. unfold closes.
  apply (list_elem_of_fmap_2 (λ kv : string * file, EvClose (fileHandle kv.2))
           _ (tok, f)).
  by apply rangeMap_elem.
Qed.

Lemma closes_events (files : gmap string file) : Forall closeEvent (closes env files).
Proof. unfold closes. apply Forall_fmap, Forall_forall. by intros kv _. Qed.

Lemma PathInv_empty : PathInv g ∅.
Proof. intros tok f Hf. by rewrite lookup_empty in Hf. Qed.

(** The events of a run, in order: the requests of the verification, the
    lock, what happens inside, the unlock. *)
Lemma castVoteReplies_trace (payload : string) (w : World) :
  let r := castVoteReplies g env payload w in
  ∃ evs, trace r.2 = trace w ++ evs ∧
    ((evs = [] ∧ r.2 = w ∧ ∃ x, r.1 = Done x) ∨
     ∃ requests, Forall queryEvent requests ∧
       ((lockLock env ≠ None ∧ evs = requests ++ [EvLock] ∧ disk r.2 = disk w ∧
         ∃ x, r.1 = Done x) ∨
        (lockLock env = None ∧
         ∃ inside, evs = requests ++ [EvLock] ++ inside ++ [EvUnlock] ∧
                   Forall insideEvent inside ∧
                   ((∃ x, r.1 = Done x) →
                    ∀ path, EvOpenFile path ∈ inside → EvClose path ∈ inside) ∧
                   ((∃ msg, r.1 = Panicked msg) →
                    Forall (λ e, gitEvent e ∨ ledgerEvent e) inside)))).
Proof.
  intros r. subst r.
  destruct (castVoteReplies_anatomy g env payload w)
    as [[e ->] | (votes & fiJSON & fi & Hdec & Hid & Hfi & Hcases)].
  { exists []. rewrite app_nil_r. split; [done|]. left. by eauto. }
  cbn zeta in Hcases.
  pose proof (castLoop_events g env (decredPluginSettings w) fi votes 0
                (replicate (length votes) CastVoteReply.zero, ∅)) as Hreq.
  destruct (castLoop _ _ _ _ _ _ _) as [[cbr1 D] reqs]. cbn [fst snd] in *.
  destruct Hcases as [(e & Hlock & ->) | [(Hlock & e & git & Hgit & ->)
                      | (Hlock & Hshut & Hco & Hpull & ->)]].
  - exists (reqs ++ [EvLock]). cbn [snd trace logged].
    split; [by rewrite <- (assoc_L (++))|]. right. exists reqs. split; [done|].
    left. split; [by rewrite Hlock|]. do 2 (split; [done|]). by eexists.
  - exists (reqs ++ [EvLock] ++ git ++ [EvUnlock]). cbn [snd trace logged].
    split; [by rewrite <- !(assoc_L (++))|]. right. exists reqs. split; [done|].
    right. split; [done|]. exists git. split; [done|]. split.
    + eapply Forall_impl; [exact Hgit|]. intros ev ?. by left.
    + split; [|by intros [msg [=]]]. intros _ path Hin. exfalso.
      by apply (proj1 (Forall_forall _ _) Hgit) in Hin.
  - destruct (forEach _ _ _ _) as [o w2] eqn:Hloop.
    destruct (storeLoop_effects g env D _ _ _ _ _ _ PathInv_empty Hloop)
      as (levs & _ & Htr & Hlevs & _ & Hpost).
    assert (Hin0 : Forall insideEvent
              ([EvGitCheckout (unvetted g) "master"; EvGitPull (unvetted g)] ++ levs)).
    { apply Forall_app. split; [repeat constructor; by left|].
      eapply Forall_impl; [exact Hlevs|]. intros ev ?. right. by left. }
    destruct o as [[files cbr]|msg]; cbn [fst snd].
    + destruct Hpost as (_ & _ & Hopen & _).
      exists (reqs ++ [EvLock] ++ ([EvGitCheckout (unvetted g) "master";
                                    EvGitPull (unvetted g)] ++ levs
                                   ++ closes env files) ++ [EvUnlock]).
      cbn [trace logged]. rewrite Htr. unfold lockedWorld. cbn [trace logged].
      split; [by rewrite <- !(assoc_L (++))|]. right. exists reqs. split; [done|].
      right. split; [done|]. eexists. split; [reflexivity|]. split.
      * rewrite (assoc_L (++)). apply Forall_app. split; [done|].
        eapply Forall_impl; [apply closes_events|]. intros ev ?. right. by right.
      * split; [|by intros [msg [=]]].
        intros _ path Hin. rewrite (assoc_L (++)). apply elem_of_app. right.
        rewrite (assoc_L (++)) in Hin.
        apply elem_of_app in Hin as [Hin|Hin].
        -- apply elem_of_app in Hin as [Hin|Hin].
           ++ exfalso. apply elem_of_cons in Hin as [[=]|Hin].
              by apply list_elem_of_singleton in Hin.
           ++ destruct (Hopen path Hin) as (tok & f & Hf & <-).
              by eapply closes_handle.
        -- exfalso. by apply (proj1 (Forall_forall _ _) (closes_events files)) in Hin.
    + exists (reqs ++ [EvLock] ++ ([EvGitCheckout (unvetted g) "master";
                                    EvGitPull (unvetted g)] ++ levs) ++ [EvUnlock]).
      cbn [trace logged]. rewrite Htr. unfold lockedWorld. cbn [trace logged].
      split; [by rewrite <- !(assoc_L (++))|]. right. exists reqs. split; [done|].
      right. split; [done|]. eexists. split; [reflexivity|]. split; [done|].
      split; [by intros [x [=]]|]. intros _.
      apply Forall_app. split; [repeat constructor; by left|].
      eapply Forall_impl; [exact Hlevs|]. intros ev ?. by right.
Qed.

(** X9.  The lock is taken at most once per call and only after every
    request of the verification loop; when [Lock] fails nothing follows
    and the disk is untouched; when it succeeds the unlock is the last
    event of the call, whether the call returns or panics, and everything
    else the call does (git, files) lies between the two. *)
Theorem castVotes_lock_discipline (payload : string) (w : World) :
  let w' := (pluginCastVotes g env payload w).2 in
  ∃ evs, trace w' = trace w ++ evs ∧
    (evs = [] ∨
     ∃ requests, Forall queryEvent requests ∧
       ((lockLock env ≠ None ∧ evs = requests ++ [EvLock] ∧ disk w' = disk w) ∨
        (lockLock env = None ∧
         ∃ inside, evs = requests ++ [EvLock] ++ inside ++ [EvUnlock] ∧
                   Forall insideEvent inside))).
Proof.
  intros w'. subst w'. rewrite pluginCastVotes_world.
  destruct (castVoteReplies_trace payload w)
    as (evs & Htr & [[-> _] | (reqs & Hreq & [(Hlock & -> & Hdisk & _)
                                  | (Hlock & inside & -> & Hin & _)])]).
  - exists []. split; [done | by left].
  - eexists. split; [exact Htr|]. right. exists reqs. split; [done|]. by left.
  - eexists. split; [exact Htr|]. right. exists reqs. split; [done|]. right.
    split; [done|]. by exists inside.
Qed.

(** X10.  When the call returns (with a reply or an error), every votes
    file it opened has been closed before the unlock. *)
Theorem castVotes_closes_files (payload : string) (w : World)
    (x : res string) (evs : list Event) (path : string) :
  (pluginCastVotes g env payload w).1 = Done x →
  trace (pluginCastVotes g env payload w).2 = trace w ++ evs →
  EvOpenFile path ∈ evs →
  ∃ before, evs = before ++ [EvUnlock] ∧ EvClose path ∈ before.
Proof.
  intros Hdone Htr Hin. rewrite pluginCastVotes_world in Htr.
  assert (Hdone' : ∃ y, (castVoteReplies g env payload w).1 = Done y).
  { unfold pluginCastVotes in Hdone.
    destruct (castVoteReplies g env payload w) as [[[cbr|e]|msg] w']; [by eexists..|done]. }
  destruct (castVoteReplies_trace payload w)
    as (evs' & Htr' & [[-> _] | (reqs & Hreq & [(_ & -> & _) | (Hlock & inside & -> & _ & Hcl & _)])]);
    rewrite Htr' in Htr; apply app_inv_head in Htr; subst evs.
  - by apply elem_of_nil in Hin.
  - exfalso. apply elem_of_app in Hin as [Hin|Hin].
    + by apply (proj1 (Forall_forall _ _) Hreq) in Hin.
    + by apply list_elem_of_singleton in Hin.
  - exists (reqs ++ [EvLock] ++ inside).
    split; [by rewrite <- !(assoc_L (++))|].
    apply elem_of_app in Hin as [Hin|Hin].
    { exfalso. by apply (proj1 (Forall_forall _ _) Hreq) in Hin. }
    apply elem_of_cons in Hin as [[=]|Hin].
    apply elem_of_app in Hin as [Hin|Hin].
    + apply elem_of_app. right. right. by apply Hcl.
    + by apply list_elem_of_singleton in Hin.
Qed.

(** X11.  When the call panics inside the ledger loop, the deferred
    unlock still runs and is the last event, but no file is closed: the
    loop that unwinds the opens is not deferred, so every votes file the
    call had opened stays open. *)
Theorem castVotes_panic_leaves_files_open (payload msg : string) (w : World)
    (evs : list Event) :
  (pluginCastVotes g env payload w).1 = Panicked msg →
  trace (pluginCastVotes g env payload w).2 = trace w ++ evs →
  (∃ before, evs = before ++ [EvUnlock] ∧ EvLock ∈ before) ∧
  ∀ path, EvClose path ∉ evs.
Proof.
  intros Hpanic Htr. rewrite pluginCastVotes_world in Htr.
  assert (Hpanic' : ∃ m, (castVoteReplies g env payload w).1 = Panicked m).
  { unfold pluginCastVotes in Hpanic.
    destruct (castVoteReplies g env payload w) as [[[cbr|e]|m] w']; [done..|by eexists]. }
  assert (Hnot : ¬ ∃ x, (castVoteReplies g env payload w).1 = Done x).
  { destruct Hpanic' as [m Hm]. rewrite Hm. by intros [x [=]]. }
  destruct (castVoteReplies_trace payload w)
    as (evs' & Htr' & [(-> & _ & Hdone) | (reqs & Hreq & [(Hlock & -> & _ & Hdone)
                                  | (Hlock & inside & -> & _ & _ & Hleak)])]);
    [done.. |].
  rewrite Htr' in Htr. apply app_inv_head in Htr. subst evs.
  specialize (Hleak Hpanic'). split.
  - exists (reqs ++ [EvLock] ++ inside). split; [by rewrite <- !(assoc_L (++))|].
    apply elem_of_app. right. apply list_elem_of_here.
  - intros path Hin.
    apply elem_of_app in Hin as [Hin|Hin].
    { by apply (proj1 (Forall_forall _ _) Hreq) in Hin. }
    apply elem_of_cons in Hin as [[=]|Hin].
    apply elem_of_app in Hin as [Hin|Hin].
    + apply (proj1 (Forall_forall _ _) Hleak) in Hin. by destruct Hin.
    + by apply list_elem_of_singleton in Hin.
Qed.

End RunShape.

Lemma castVotes_panic_leaves_files_open_witness :
  let w := Demo.world {[ "vetted/abc123/votes" := [Corrupt "invalid character"] ]} in
  let evs := trace (pluginCastVotes (Demo.backend 16) (Demo.env 100) "one" w).2 in
  EvOpenFile "vetted/abc123/votes" ∈ evs ∧
  (∃ before, evs = before ++ [EvUnlock] ∧ EvLock ∈ before) ∧
  ∀ path, EvClose path ∉ evs.
Proof.
  intros w evs. split.
  - vm_compute. do 5 apply list_elem_of_further. apply list_elem_of_here.
  - apply (castVotes_panic_leaves_files_open (Demo.backend 16) (Demo.env 100) "one"
             "zzz invalid character" w evs).
    + vm_compute. reflexivity.
    + reflexivity.
Defined.

Lemma castVotes_closes_files_witness :
  ∃ before,
    trace (pluginCastVotes (Demo.backend 16) (Demo.env 100) "one" (Demo.world ∅)).2
    = before ++ [EvUnlock] ∧
    EvClose "vetted/abc123/votes" ∈ before.
Proof.
  apply (castVotes_closes_files (Demo.backend 16) (Demo.env 100) "one" (Demo.world ∅)
           (Ok "{DsAlice|politeiadDsAlice|}")).
  - vm_compute. reflexivity.
  - reflexivity.
  - vm_compute. do 5 apply list_elem_of_further. apply list_elem_of_here.
Defined.

Section Writes.
Context `{Primitives}.
Variables (g : gitBackEnd) (env : Env).

(** What a run does to the disk: records are appended, each of them a
    vote of the dedup map, in the file of its token. *)
Lemma castVoteReplies_disk (payload : string) (w : World) :
  decredPluginSettings (castVoteReplies g env payload w).2 = decredPluginSettings w ∧
  (disk (castVoteReplies g env payload w).2 = disk w ∨
   ∃ votes fiJSON fi,
     DecodeCastVotes (bytesOf payload) = Ok votes ∧
     decredPluginSettings w !! decredPluginIdentity = Some fiJSON ∧
     UnmarshalFullIdentity (bytesOf fiJSON) = Ok fi ∧
     wroteOnly g ((λ kv : string * dedupVote, vote kv.2) <$>
                    rangeMap (rangeDedupVotes env)
                      (verified g env (decredPluginSettings w) fi votes).2)
       (disk w) (disk (castVoteReplies g env payload w).2)).
Proof.
  destruct (castVoteReplies_anatomy g env payload w)
    as [[e ->] | (votes & fiJSON & fi & Hdec & Hid & Hfi & Hcases)].
  { split; [done | by left]. }
  cbn zeta in Hcases. unfold verified.
  destruct (castLoop _ _ _ _ _ _ _) as [[cbr1 D] reqs] eqn:Hverify. cbn [fst snd] in *.
  destruct Hcases as [(e & Hlock & ->) | [(Hlock & e & git & Hgit & ->)
                      | (Hlock & Hshut & Hco & Hpull & ->)]];
    [split; [done | by left].. |].
  destruct (forEach _ _ _ _) as [o w2] eqn:Hloop.
  destruct (storeLoop_effects g env D _ _ _ _ _ _ (PathInv_empty g) Hloop)
    as (levs & Hset & _ & _ & Hwrote & _).
  assert (Hd : disk (lockedWorld g reqs w) = disk w) by done.
  assert (Hs : decredPluginSettings (lockedWorld g reqs w) = decredPluginSettings w)
    by done.
  rewrite Hd in Hwrote. rewrite Hs in Hset.
  destruct o as [[files cbr]|msg]; cbn [fst snd];
    (split; [exact Hset|]); right; exists votes, fiJSON, fi;
    do 3 (split; [done|]); rewrite Hverify; exact Hwrote.
Qed.

(** X12.  Whatever the outcome of the command (reply, error or panic),
    the settings stay and every file of the disk is what it was plus
    records appended at its end; each appended record is a vote of the
    batch that passed the validation, written to the votes file of its own
    token. *)
Theorem castVotes_writes_validated_only (payload : string) (w : World) :
  let w' := (pluginCastVotes g env payload w).2 in
  decredPluginSettings w' = decredPluginSettings w ∧
  ∀ path, ∃ more,
    fileAt (disk w') path = fileAt (disk w) path ++ more ∧
    Forall (λ it, ∃ votes k v,
              DecodeCastVotes (bytesOf payload) = Ok votes ∧
              votes !! k = Some v ∧
              validated g env (decredPluginSettings w) v = None ∧
              it = Stored v ∧ path = votesPath g (CastVote.Token v)) more.
Proof.
  intros w'. subst w'. rewrite pluginCastVotes_world.
  destruct (castVoteReplies_disk payload w)
    as [Hset [Hsame | (votes & fiJSON & fi & Hdec & Hid & Hfi & Hwrote)]];
    (split; [done|]); intros path.
  { exists []. rewrite Hsame. by rewrite app_nil_r. }
  destruct (Hwrote path) as (more & Hmore & Hall). exists more. split; [done|].
  eapply Forall_impl; [exact Hall|]. intros it (v & Hv & -> & ->).
  apply list_elem_of_fmap in Hv as ([key dv] & -> & Hkv).
  apply rangeMap_elem in Hkv. cbn [fst snd] in Hkv.
  pose proof (Phase1_verified g env (decredPluginSettings w) fi votes)
    as (_ & _ & Hmap & _).
  destruct (Hmap key dv Hkv) as (Hidx & _ & Hval).
  by exists votes, (index dv), (vote dv).
Qed.

(** X13.  Durability of an acceptance.  When the command returns a reply,
    every vote whose entry is an acceptance (no error, a counter-signature)
    is in the votes file of its token when the command returns. *)
Theorem castVotes_accepted_stored (payload reply : string) (w w' : World) :
  pluginCastVotes g env payload w = (Done (Ok reply), w') →
  ∃ votes cbr,
    DecodeCastVotes (bytesOf payload) = Ok votes ∧
    castVoteReplies g env payload w = (Done (Ok cbr), w') ∧
    encodeReplies cbr = Ok reply ∧
    ∀ k v r, votes !! k = Some v → cbr !! k = Some r → accepted r →
      Stored v ∈ fileAt (disk w') (votesPath g (CastVote.Token v)).
Proof.
  intros Hrun. destruct (pluginCastVotes_Ok _ _ _ _ _ _ Hrun) as (cbr & Hcbr & Henc).
  destruct (castVoteReplies_shapes g env payload w w' cbr Hcbr)
    as (votes & fiJSON & fi & Hdec & Hid & Hfi & Hlen & Hshape).
  exists votes, cbr. do 3 (split; [done|]). intros k v r Hk Hr [Herr Hsig].
  cbn zeta in Hshape.
  destruct (Hshape k v Hk) as [[Hr' _] | [(e & _ & Hr' & _) | (Hval & Hdv & Hr')]];
    [rewrite Hr in Hr'; by injection Hr' as -> ..|].
  destruct (castVoteReplies_anatomy g env payload w)
    as [[e He] | (votes' & fiJSON' & fi' & Hdec' & Hid' & Hfi' & Hcases)];
    [by rewrite Hcbr in He|].
  rewrite Hdec in Hdec'. injection Hdec' as <-.
  rewrite Hid in Hid'. injection Hid' as <-. rewrite Hfi in Hfi'. injection Hfi' as <-.
  cbn zeta in Hcases. unfold verified in Hdv.
  pose proof (Phase1_verified g env (decredPluginSettings w) fi votes) as (Hlen1 & _).
  unfold verified in Hlen1.
  destruct (castLoop _ _ _ _ _ _ _) as [[cbr1 D] reqs]. cbn [fst snd] in *.
  destruct Hcases as [(e & _ & He) | [(_ & e & git & _ & He)
                      | (_ & _ & _ & _ & Heq)]];
    [by rewrite Hcbr in He.. |].
  destruct (forEach _ _ _ _) as [o w2] eqn:Hloop.
  destruct (storeLoop_effects g env D _ _ _ _ _ _ (PathInv_empty g) Hloop)
    as (levs & _ & _ & _ & _ & Hpost).
  rewrite Hcbr in Heq. destruct o as [[files cbr']|msg]; [|done].
  injection Heq as -> ->. cbn [disk logged].
  destruct Hpost as (_ & _ & _ & _ & _ & Hstored).
  destruct (Hstored (voteKey v, {| vote := v; index := k |})) as [Hin | (r' & Hr'' & He)].
  - by apply rangeMap_elem.
  - cbn [snd]. rewrite (hitIndex_entry D (voteKey v)); [|done..]. cbn [index].
    rewrite Hlen1. by eapply lookup_lt_Some.
  - done.
  - cbn [snd] in Hr''. rewrite (hitIndex_entry D (voteKey v)) in Hr''; [|done..].
    cbn [index] in Hr''. rewrite Hr in Hr''. injection Hr'' as <-.
    by rewrite Herr in He.
Qed.

End Writes.

Lemma castVotes_accepted_stored_witness :
  let g := Demo.backend 16 in
  let env := Demo.env 100 in
  let w := Demo.world ∅ in
  let w' := (pluginCastVotes g env "one" w).2 in
  ∃ votes cbr,
    DecodeCastVotes (bytesOf "one") = Ok votes ∧
    castVoteReplies g env "one" w = (Done (Ok cbr), w') ∧
    encodeReplies cbr = Ok "{DsAlice|politeiadDsAlice|}" ∧
    ∀ k v r, votes !! k = Some v → cbr !! k = Some r → accepted r →
      Stored v ∈ fileAt (disk w') (votesPath g (CastVote.Token v)).
Proof.
  intros g env w w'.
  apply (castVotes_accepted_stored g env "one" "{DsAlice|politeiadDsAlice|}" w w').
  vm_compute. reflexivity.
Defined.

Section Verdicts.
Context `{Primitives}.
Variables (g : gitBackEnd) (env : Env).

Lemma rangeMap_empty {V} (rank : string → nat) : rangeMap rank (∅ : gmap string V) = [].
Proof. unfold rangeMap. by rewrite map_to_list_empty. Qed.

Lemma verified_none_valid (settings : gmap string string) (fi : FullIdentity)
    (votes : list CastVote.t) :
  (∀ v, v ∈ votes → validated g env settings v ≠ None) →
  (verified g env settings fi votes).2 = ∅.
Proof.
  intros Hbad. apply map_empty. intros key.
  destruct ((verified g env settings fi votes).2 !! key) as [dv|] eqn:Hdv; [|done].
  pose proof (Phase1_verified g env settings fi votes) as (_ & _ & Hmap & _).
  destruct (Hmap key dv Hdv) as (Hidx & _ & Hval).
  exfalso. eapply Hbad; [|exact Hval]. by eapply list_elem_of_lookup_2.
Qed.

(** X14.  A batch none of whose votes passes the validation, the empty
    batch among them: the command never panics, the disk stays as it was,
    no file is opened, written or closed (the trace gains requests of the
    verification, the lock, git and the unlock only), and a reply, when one
    is returned, has for every vote the echoed signature with the error of
    its validation. *)
Theorem castVotes_nothing_valid (payload : string) (w : World)
    (votes : list CastVote.t) :
  DecodeCastVotes (bytesOf payload) = Ok votes →
  (∀ v, v ∈ votes → validated g env (decredPluginSettings w) v ≠ None) →
  let r := pluginCastVotes g env payload w in
  (∃ x, r.1 = Done x) ∧
  disk r.2 = disk w ∧
  (∃ evs, trace r.2 = trace w ++ evs ∧
          Forall (λ e, queryEvent e ∨ lockEvent e ∨ gitEvent e) evs) ∧
  (∀ cbr w', castVoteReplies g env payload w = (Done (Ok cbr), w') →
     length cbr = length votes ∧
     ∀ k v, votes !! k = Some v →
       ∃ e, validated g env (decredPluginSettings w) v = Some e ∧
            cbr !! k = Some (invalidReply v e)).
Proof.
  intros Hdec Hbad r.
  assert (Hrun : (∃ x, (castVoteReplies g env payload w).1 = Done x) ∧
                 disk (castVoteReplies g env payload w).2 = disk w ∧
                 ∃ evs, trace (castVoteReplies g env payload w).2 = trace w ++ evs ∧
                        Forall (λ e, queryEvent e ∨ lockEvent e ∨ gitEvent e) evs).
  { destruct (castVoteReplies_anatomy g env payload w)
      as [[e ->] | (votes' & fiJSON & fi & Hdec' & Hid & Hfi & Hcases)].
    { split; [by eexists|]. split; [done|]. exists []. by rewrite app_nil_r. }
    rewrite Hdec in Hdec'. injection Hdec' as <-. cbn zeta in Hcases.
    pose proof (verified_none_valid (decredPluginSettings w) fi votes Hbad) as HD.
    pose proof (castLoop_events g env (decredPluginSettings w) fi votes 0
                  (replicate (length votes) CastVoteReply.zero, ∅)) as Hreq.
    unfold verified in HD.
    destruct (castLoop _ _ _ _ _ _ _) as [[cbr1 D] reqs]. cbn [fst snd] in *. subst D.
    assert (Hq : Forall (λ e, queryEvent e ∨ lockEvent e ∨ gitEvent e) reqs).
    { eapply Forall_impl; [exact Hreq|]. intros ev ?. by left. }
    destruct Hcases as [(e & Hlock & ->) | [(Hlock & e & git & Hgit & ->)
                        | (Hlock & Hshut & Hco & Hpull & ->)]].
    - split; [by eexists|]. split; [done|]. exists (reqs ++ [EvLock]).
      cbn [snd trace logged]. split; [by rewrite <- (assoc_L (++))|].
      apply Forall_app. split; [done|]. apply Forall_singleton. right. left. by left.
    - split; [by eexists|]. split; [done|]. exists (reqs ++ [EvLock] ++ git ++ [EvUnlock]).
      cbn [snd trace logged]. split; [by rewrite <- !(assoc_L (++))|].
      apply Forall_app. split; [done|]. apply Forall_cons. split; [right; left; by left|].
      apply Forall_app. split.
      + eapply Forall_impl; [exact Hgit|]. intros ev ?. right. by right.
      + apply Forall_singleton. right. left. by right.
    - rewrite rangeMap_empty, forEach_nil. unfold closes. rewrite rangeMap_empty.
      split; [by eexists|]. split; [done|].
      exists (reqs ++ [EvLock; EvGitCheckout (unvetted g) "master";
                       EvGitPull (unvetted g); EvUnlock]).
      unfold lockedWorld. cbn [snd trace logged fmap list_fmap].
      split; [by rewrite app_nil_r, <- !(assoc_L (++))|].
      apply Forall_app. split; [done|].
      apply Forall_cons. split; [right; left; by left|].
      apply Forall_cons. split; [right; by right|].
      apply Forall_cons. split; [right; by right|].
      apply Forall_singleton. right. left. by right. }
  destruct Hrun as ((x & Hx) & Hdisk & Hevs).
  subst r. rewrite pluginCastVotes_world. split; [|split; [done|split; [done|]]].
  - unfold pluginCastVotes.
    destruct (castVoteReplies g env payload w) as [[[cbr|e]|msg] w1];
      [by eexists.. | done].
  - intros cbr w' Hok.
    destruct (castVoteReplies_shapes g env payload w w' cbr Hok)
      as (votes' & fiJSON & fi & Hdec' & Hid & Hfi & Hlen & Hshape).
    rewrite Hdec in Hdec'. injection Hdec' as <-. split; [done|].
    intros k v Hk. cbn zeta in Hshape.
    rewrite (verified_none_valid _ fi votes Hbad) in Hshape.
    destruct (Hshape k v Hk) as [[_ (dv & Hdv & _)] | [(e & He & Hr & _) | (_ & Hdv & _)]].
    + by rewrite lookup_empty in Hdv.
    + by exists e.
    + by rewrite lookup_empty in Hdv.
Qed.

(** X15.  The verdict on each vote of a batch that gets a reply.  Call a
    vote pre-empted when an earlier vote of the batch with the same key
    (token followed by ticket) passed the validation.  A pre-empted vote gets the duplicate
    error, whether or not it would itself validate; a vote that is not
    pre-empted gets the error of its validation when it fails it, and the
    counter-signature (with or without "ticket already voted") when it
    passes.  So of several votes with one key it is the first valid one
    that counts, and an invalid vote does not block a later valid one. *)
Theorem castVotes_first_valid_counts (payload reply : string) (w w' : World) :
  pluginCastVotes g env payload w = (Done (Ok reply), w') →
  ∃ votes fi cbr,
    DecodeCastVotes (bytesOf payload) = Ok votes ∧
    castVoteReplies g env payload w = (Done (Ok cbr), w') ∧
    encodeReplies cbr = Ok reply ∧
    ∀ k v, votes !! k = Some v →
      let settings := decredPluginSettings w in
      let preempted := ∃ j vj, j < k ∧ votes !! j = Some vj ∧
                               voteKey vj = voteKey v ∧
                               validated g env settings vj = None in
      (preempted ∧ cbr !! k = Some (duplicateReply v)) ∨
      (¬ preempted ∧ ∃ e, validated g env settings v = Some e ∧
                          cbr !! k = Some (invalidReply v e)) ∨
      (¬ preempted ∧ validated g env settings v = None ∧
       (cbr !! k = Some (signedReply fi v) ∨
        cbr !! k = Some (alreadyVotedReply fi v))).
Proof.
  intros Hrun. destruct (pluginCastVotes_Ok _ _ _ _ _ _ Hrun) as (cbr & Hcbr & Henc).
  destruct (castVoteReplies_shapes g env payload w w' cbr Hcbr)
    as (votes & fiJSON & fi & Hdec & Hid & Hfi & Hlen & Hshape).
  exists votes, fi, cbr. do 3 (split; [done|]). intros k v Hk settings preempted.
  cbn zeta in Hshape. fold settings in Hshape.
  pose proof (Phase1_verified g env settings fi votes) as Hfull.
  assert (Hearly : preempted →
            ∃ dv, (verified g env settings fi votes).2 !! voteKey v = Some dv ∧
                  index dv < k).
  { intros (j & vj & Hjk & Hj & Hkey & Hval).
    destruct (Phase1_valid_entry g env settings fi votes _ _ j vj Hfull Hj Hval)
      as (dv & Hdv & Hi).
    rewrite Hkey in Hdv. exists dv. split; [done | lia]. }
  destruct (Hshape k v Hk) as [[Hr (dv & Hdv & Hi)] | [(e & He & Hr & Hlt)
                               | (Hval & Hdv & Hr)]].
  - left. split; [|done]. destruct Hfull as (_ & _ & Hmap & _).
    destruct (Hmap _ dv Hdv) as (Hidx & Hkey & Hval).
    by exists (index dv), (vote dv).
  - right. left. split; [|by exists e].
    intros Hpre. destruct (Hearly Hpre) as (dv & Hdv & Hi).
    specialize (Hlt dv Hdv). lia.
  - right. right. split; [|done].
    intros Hpre. destruct (Hearly Hpre) as (dv & Hdv' & Hi).
    rewrite Hdv in Hdv'. injection Hdv' as <-. cbn [index] in Hi. lia.
Qed.

End Verdicts.

Lemma castVotes_nothing_valid_witness :
  let g := Demo.backend 16 in
  let env := Demo.env 100 in
  let w := {| decredPluginSettings := {[ "fullidentity" := "politeiad" ]};
              disk := ∅; trace := [] |} in
  let r := pluginCastVotes g env "one" w in
  (∃ x, r.1 = Done x) ∧
  disk r.2 = disk w ∧
  (∃ evs, trace r.2 = trace w ++ evs ∧
          Forall (λ e, queryEvent e ∨ lockEvent e ∨ gitEvent e) evs) ∧
  (∀ cbr w', castVoteReplies g env "one" w = (Done (Ok cbr), w') →
     length cbr = length [Demo.vote1] ∧
     ∀ k v, [Demo.vote1] !! k = Some v →
       ∃ e, validated g env (decredPluginSettings w) v = Some e ∧
            cbr !! k = Some (invalidReply v e)).
Proof.
  intros g env w.
  apply (castVotes_nothing_valid g env "one" w [Demo.vote1]).
  - reflexivity.
  - intros v Hv. apply list_elem_of_singleton in Hv. subst v.
    vm_compute. discriminate.
Defined.

Lemma castVotes_first_valid_counts_witness :
  let g := Demo.backend 16 in
  let env := Demo.env 100 in
  let w := Demo.world ∅ in
  let w' := (pluginCastVotes g env "retry" w).2 in
  ∃ votes fi cbr,
    DecodeCastVotes (bytesOf "retry") = Ok votes ∧
    castVoteReplies g env "retry" w = (Done (Ok cbr), w') ∧
    encodeReplies cbr
      = Ok "{DsMallory||could not verify message},{DsAlice|politeiadDsAlice|}" ∧
    ∀ k v, votes !! k = Some v →
      let settings := decredPluginSettings w in
      let preempted := ∃ j vj, j < k ∧ votes !! j = Some vj ∧
                               voteKey vj = voteKey v ∧
                               validated g env settings vj = None in
      (preempted ∧ cbr !! k = Some (duplicateReply v)) ∨
      (¬ preempted ∧ ∃ e, validated g env settings v = Some e ∧
                          cbr !! k = Some (invalidReply v e)) ∨
      (¬ preempted ∧ validated g env settings v = None ∧
       (cbr !! k = Some (signedReply fi v) ∨
        cbr !! k = Some (alreadyVotedReply fi v))).
Proof.
  intros g env w w'.
  apply (castVotes_first_valid_counts g env "retry"
           "{DsMallory||could not verify message},{DsAlice|politeiadDsAlice|}" w w').
  vm_compute. reflexivity.
Defined.

Section AppendOnly.
Context `{Primitives}.

Lemma runCommand_appends (c : command) (w : World) (path : string)
    (items : list LedgerItem) :
  disk w !! path = Some items →
  ∃ more, disk (runCommand c w) !! path = Some (items ++ more) ∧
          Forall isStored more.
Proof.
  intros Hp.
  assert (Hsame : ∀ w', disk w' = disk w →
            ∃ more, disk w' !! path = Some (items ++ more) ∧ Forall isStored more).
  { intros w' ->. exists []. by rewrite app_nil_r. }
  destruct c as [g env payload | g env payload | key value]; cbn [runCommand].
  - rewrite pluginCastVotes_world.
    destruct (castVoteReplies_grows g env payload w) as (_ & Hgrow & _).
    destruct (Hgrow path items Hp) as (more & Hmore).
    exists more. split; [done|].
    destruct (castVoteReplies_disk g env payload w)
      as [_ [Heq | (votes & fiJSON & fi & _ & _ & _ & Hwrote)]].
    + rewrite Heq, Hp in Hmore. injection Hmore as Hmore.
      rewrite <- (app_nil_r items) in Hmore at 1.
      apply app_inv_head in Hmore. by subst more.
    + destruct (Hwrote path) as (more' & Hfile & Hall). unfold fileAt in Hfile.
      rewrite Hmore, Hp in Hfile. cbn [default] in Hfile.
      apply app_inv_head in Hfile. subst more'.
      eapply Forall_impl; [exact Hall|]. by intros it (v & _ & -> & _).
  - apply Hsame, pluginStartVote_disk.
  - apply Hsame. unfold setDecredPluginSetting. by case_decide.
Qed.

(** X16.  The votes files are append-only.  Through any sequence of the
    plugin's commands (cast votes, start vote, settings), whatever their
    payloads and outcomes, a file that exists keeps its content as a
    prefix: nothing is deleted, truncated or rewritten, and what is added
    after it are vote records. *)
Theorem ledger_append_only (cs : list command) (w0 : World) (path : string)
    (items : list LedgerItem) :
  disk w0 !! path = Some items →
  ∃ more, disk (runCommands cs w0) !! path = Some (items ++ more) ∧
          Forall isStored more.
Proof.
  unfold runCommands. revert w0 items.
  induction cs as [|c cs IH]; intros w0 items Hp; cbn [foldl].
  { exists []. by rewrite app_nil_r. }
  destruct (runCommand_appends c w0 path items Hp) as (more1 & H1 & Hall1).
  destruct (IH _ _ H1) as (more2 & H2 & Hall2).
  exists (more1 ++ more2). rewrite (assoc_L (++)). split; [done|].
  by apply Forall_app.
Qed.

End AppendOnly.

Lemma ledger_append_only_witness :
  ∃ more,
    disk (runCommands [CastVotes (Demo.backend 16) (Demo.env 100) "mixed";
                       SetSetting "dcrdata" "";
                       CastVotes (Demo.backend 16) (Demo.env 100) "one"]
            (Demo.world {[ "vetted/abc123/votes" := [Stored Demo.vote1] ]}))
      !! "vetted/abc123/votes"
    = Some ([Stored Demo.vote1] ++ more) ∧
    Forall isStored more.
Proof.
  apply (ledger_append_only
           [CastVotes (Demo.backend 16) (Demo.env 100) "mixed";
            SetSetting "dcrdata" "";
            CastVotes (Demo.backend 16) (Demo.env 100) "one"]
           (Demo.world {[ "vetted/abc123/votes" := [Stored Demo.vote1] ]})
           "vetted/abc123/votes" [Stored Demo.vote1]).
  reflexivity.
Defined.
